(** * White-background removal for sprite sheets

    Shallow embedding of [scripts/remove_white_bg.py] and the properties of
    its three pixel-classification strategies:

    - [remove_white_background]       (fixed whiteness threshold, bulk rewrite),
    - [remove_near_white_with_edges]  (same test, coordinate addressing),
    - [process_sprite_sheet]          (corner-sampled background colour and a
                                       distance-based alpha ramp).

    Decoding, mode conversion and PNG encoding are Pillow's; the embedding
    starts from the decoded RGBA image and ends at the image handed to
    [img.save].  The [print] calls are not modelled.

    [main] is embedded over a map from paths to image files: it backs each
    sheet up once and runs [process_sprite_sheet] on it in place. *)

From Stdlib Require Import ZArith Lia List Bool.
From Stdlib Require Import Floats.SpecFloat Ascii.
From stdpp Require Import base tactics option list gmap sets strings.

Local Open Scope Z_scope.

(* ===================================================================== *)
(** ** Python exceptions and the error monad                              *)
(* ===================================================================== *)

(** The exceptions the modelled statements can raise. *)
Inductive exn : Type :=
  | IndexError          (* pixel access outside the image *)
  | ZeroDivisionError   (* true division by zero *)
  | OverflowError       (* int() of an infinity *)
  | ValueError.         (* int() of a NaN *)

Inductive result (A : Type) : Type :=
  | Ok (x : A)
  | Raise (e : exn).
Arguments Ok {A} x.
Arguments Raise {A} e.

(** Sequencing: an exception raised by [m] propagates.  With this
    instance stdpp's [x ← m; k] notation reads as Python's statement
    order. *)
Global Instance result_bind : MBind result := λ A B k m,
  match m with
  | Ok x => k x
  | Raise e => Raise e
  end.

(** [for x in xs: body], threading the mutated state [s]; an exception in
    the body leaves the loop. *)
Fixpoint for_in {A S} (xs : list A) (body : A → S → result S) (s : S)
  : result S :=
  match xs with
  | [] => Ok s
  | x :: xs' => s' ← body x s; for_in xs' body s'
  end.

(** [range(n)]. *)
Definition range (n : Z) : list Z := seqZ 0 n.

(* ===================================================================== *)
(** ** Python floats (IEEE 754 binary64)                                  *)
(* ===================================================================== *)

Module PyFloat.

Definition prec : Z := 53.
Definition emax : Z := 1024.

(** Conversion of an int to a float, rounding to nearest even. *)
Definition of_int (n : Z) : spec_float :=
  binary_normalize prec emax n 0 false.

(** [a / b] on ints.  CPython rounds the exact quotient once; for
    operands below 2^53 in magnitude, as here, both conversions are
    exact and this is the IEEE division of the converted operands. *)
Definition int_truediv (a b : Z) : result spec_float :=
  if b =? 0 then Raise ZeroDivisionError
  else Ok (SFdiv prec emax (of_int a) (of_int b)).

(** [x * n] with [x] a float and [n] an int. *)
Definition mul_int (x : spec_float) (n : Z) : spec_float :=
  SFmul prec emax x (of_int n).

(** [int(x)]: truncation towards zero. *)
Definition to_int (x : spec_float) : result Z :=
  match x with
  | S754_zero _ => Ok 0
  | S754_infinity _ => Raise OverflowError
  | S754_nan => Raise ValueError
  | S754_finite s m e =>
      let v := if 0 <=? e then Z.pos m * 2 ^ e
               else Z.quot (Z.pos m) (2 ^ (- e)) in
      Ok (if s then - v else v)
  end.

End PyFloat.

(* ===================================================================== *)
(** ** Pixels and images                                                  *)
(* ===================================================================== *)

(** An RGBA pixel: the 4-tuple [(r, g, b, a)]. *)
Record Pixel : Type := mkPixel { pr : Z; pg : Z; pb : Z; pa : Z }.

Global Instance Pixel_eq_dec : EqDecision Pixel.
Proof. solve_decision. Defined.

(** A decoded image: [img.size] and the pixels in row-major order
    (the sequence [img.getdata()] yields). *)
Record Image : Type := mkImage {
  width : Z;
  height : Z;
  data : list Pixel
}.

Global Instance Image_eq_dec : EqDecision Image.
Proof. solve_decision. Defined.

Definition channel_ok (c : Z) : bool := (0 <=? c) && (c <=? 255).

Definition pixel_ok (p : Pixel) : bool :=
  channel_ok (pr p) && channel_ok (pg p) && channel_ok (pb p)
  && channel_ok (pa p).

(** The grid has [width * height] pixels. *)
Definition shape_ok (img : Image) : bool :=
  (0 <=? width img) && (0 <=? height img)
  && (Z.of_nat (length (data img)) =? width img * height img).

(** Well-formed image: a [width]×[height] grid of 8-bit RGBA pixels. *)
Definition wf_image (img : Image) : bool :=
  shape_ok img && forallb pixel_ok (data img).

(** *** Pixel access ([pixels = img.load()])

    Pillow's access object adds the size to a negative coordinate once and
    raises [IndexError] when the coordinate is then outside the image. *)

Definition wrap_index (i size : Z) : Z := if i <? 0 then size + i else i.

Definition locate (img : Image) (x y : Z) : result nat :=
  let x := wrap_index x (width img) in
  let y := wrap_index y (height img) in
  if (x <? 0) || (width img <=? x) || (y <? 0) || (height img <=? y)
  then Raise IndexError
  else Ok (Z.to_nat (y * width img + x)).

(** [pixels[x, y]] *)
Definition getpixel (img : Image) (x y : Z) : result Pixel :=
  i ← locate img x y;
  match data img !! i with
  | Some p => Ok p
  | None => Raise IndexError
  end.

(** [pixels[x, y] = p] *)
Definition putpixel (img : Image) (x y : Z) (p : Pixel) : result Image :=
  i ← locate img x y;
  if decide (i < length (data img))%nat
  then Ok (mkImage (width img) (height img) (<[i := p]> (data img)))
  else Raise IndexError.

(* ===================================================================== *)
(** ** Fixed-threshold whitener: [remove_white_background]               *)
(* ===================================================================== *)

(** [tolerance = None] is the call that omits the argument. *)
Definition remove_white_background (img : Image) (tolerance : option Z)
  : Image :=
  let tolerance := default 30 tolerance in
  let data := data img in                       (* img.getdata() *)
  let new_data :=
    foldl (λ new_data item,
      let '(mkPixel r g b a) := item in
      if (r >? 255 - tolerance) && (g >? 255 - tolerance)
         && (b >? 255 - tolerance)
      then new_data ++ [mkPixel r g b 0]
      else new_data ++ [item]) [] data in
  mkImage (width img) (height img) new_data.    (* img.putdata(new_data) *)

(* ===================================================================== *)
(** ** Edge-aware whitener: [remove_near_white_with_edges]               *)
(* ===================================================================== *)

Definition is_white_ish (r g b tol : Z) : bool :=
  (r >? 255 - tol) && (g >? 255 - tol) && (b >? 255 - tol).

(** First loop (lines 66-70): the coordinates to make transparent. *)
Definition collect_white (img : Image) (tolerance : Z)
  : result (gset (Z * Z)) :=
  let width := width img in
  let height := height img in
  for_in (range height) (λ y to_remove,
    for_in (range width) (λ x to_remove,
      '(mkPixel r g b a) ← getpixel img x y;
      if is_white_ish r g b tolerance
      then Ok ({[ (x, y) ]} ∪ to_remove)
      else Ok to_remove) to_remove) ∅.

(** Second loop (lines 73-75), visiting the coordinates in the order
    [order]. *)
Definition apply_transparency (order : list (Z * Z)) (img : Image)
  : result Image :=
  for_in order (λ '(x, y) img,
    '(mkPixel r g b a) ← getpixel img x y;
    putpixel img x y (mkPixel r g b 0)) img.

(** Python does not fix the iteration order of a set; [elements] is one
    order, and [apply_transparency_order] shows the result is the same for
    any other. *)
Definition remove_near_white_with_edges (img : Image) (tolerance : option Z)
  : result Image :=
  let tolerance := default 40 tolerance in
  to_remove ← collect_white img tolerance;
  apply_transparency (elements to_remove) img.

(* ===================================================================== *)
(** ** Background-colour-adaptive processor: [process_sprite_sheet]      *)
(* ===================================================================== *)

(** Python's [sum] over ints. *)
Definition py_sum (xs : list Z) : Z := foldl Z.add 0 xs.

(** Lines 94-105: the four corner reads and their per-channel average;
    [//] is floor division. *)
Definition background_color (img : Image) : result (Z * Z * Z) :=
  let width := width img in
  let height := height img in
  c0 ← getpixel img 0 0;
  c1 ← getpixel img (width - 1) 0;
  c2 ← getpixel img 0 (height - 1);
  c3 ← getpixel img (width - 1) (height - 1);
  let corners := [c0; c1; c2; c3] in
  let avg_r := py_sum (pr <$> corners) `div` 4 in
  let avg_g := py_sum (pg <$> corners) `div` 4 in
  let avg_b := py_sum (pb <$> corners) `div` 4 in
  Ok (avg_r, avg_g, avg_b).

(** Line 117: Manhattan distance of a pixel's colour to the background
    colour. *)
Definition distance (avg : Z * Z * Z) (p : Pixel) : Z :=
  let '(avg_r, avg_g, avg_b) := avg in
  Z.abs (pr p - avg_r) + Z.abs (pg p - avg_g) + Z.abs (pb p - avg_b).

(** Lines 114-127: the body of the pixel loop at [(x, y)]. *)
Definition shade_pixel (avg : Z * Z * Z) (tolerance : Z) (x y : Z)
  (img : Image) : result Image :=
  '(mkPixel r g b a) ← getpixel img x y;
  let dist := distance avg (mkPixel r g b a) in
  if dist <? tolerance * 3 then
    if dist <? tolerance then
      putpixel img x y (mkPixel r g b 0)
    else
      q ← PyFloat.int_truediv (dist - tolerance) (tolerance * 2);
      alpha ← PyFloat.to_int (PyFloat.mul_int q 255);
      let alpha := Z.min 255 (Z.max 0 alpha) in
      putpixel img x y (mkPixel r g b alpha)
  else Ok img.

Definition process_sprite_sheet (img : Image) : result Image :=
  let width := width img in
  let height := height img in
  avg ← background_color img;
  let tolerance := 35 in
  for_in (range height) (λ y img,
    for_in (range width) (λ x img,
      shade_pixel avg tolerance x y img) img) img.

(* ===================================================================== *)
(** ** Definitions used to state the properties                           *)
(* ===================================================================== *)

Global Instance exn_eq_dec : EqDecision exn.
Proof. solve_decision. Defined.

Global Instance result_eq_dec `{EqDecision A} : EqDecision (result A).
Proof. solve_decision. Defined.

(** Per-channel floor average of four corner pixels. *)
Definition corner_avg (c0 c1 c2 c3 : Pixel) : Z * Z * Z :=
  ((pr c0 + pr c1 + pr c2 + pr c3) `div` 4,
   (pg c0 + pg c1 + pg c2 + pg c3) `div` 4,
   (pb c0 + pb c1 + pb c2 + pb c3) `div` 4).

(** The pixel at column [x] of row [y], for coordinates inside the image. *)
Definition pixel_at (img : Image) (x y : Z) : option Pixel :=
  data img !! Z.to_nat (y * width img + x).

(** The three branches of the pixel loop of [process_sprite_sheet], in
    the order of its two tests ([shade_pixel_branch] ties them to the
    code). *)
Inductive branch : Type := Cleared | Ramp | Untouched.

Definition branch_of (dist tolerance : Z) : branch :=
  if dist <? tolerance * 3
  then if dist <? tolerance then Cleared else Ramp
  else Untouched.

Definition clamp (lo hi v : Z) : Z := Z.min hi (Z.max lo v).

(** Nearest integer to [n / d] for [0 < d], ties to the even neighbour
    (Python's [round]). *)
Definition round_div (n d : Z) : Z :=
  let q := n `div` d in
  let r := n `mod` d in
  if 2 * r <? d then q
  else if d <? 2 * r then q + 1
  else if Z.even q then q else q + 1.

(** The ramp alpha in the specification's words:
    clamp(0, 255, round((dist − T) / (2T) × 255)) with T = 35. *)
Definition spec_ramp_alpha (dist : Z) : Z :=
  clamp 0 255 (round_div ((dist - 35) * 255) (2 * 35)).

(** What the pixel loop of [process_sprite_sheet] leaves at a pixel. *)
Definition shade (avg : Z * Z * Z) (p : Pixel) : Pixel :=
  let dist := distance avg p in
  if dist <? 35 then mkPixel (pr p) (pg p) (pb p) 0
  else if dist <? 105
       then mkPixel (pr p) (pg p) (pb p) (((dist - 35) * 255) `div` 70)
       else p.

(** What both whiteners leave at a pixel, for tolerance [tol]. *)
Definition whiten (tol : Z) (p : Pixel) : Pixel :=
  if (pr p >? 255 - tol) && (pg p >? 255 - tol) && (pb p >? 255 - tol)
  then mkPixel (pr p) (pg p) (pb p) 0
  else p.

(** The pixel at [(x, y)] passes the whiteness test. *)
Definition white_at (img : Image) (tol : Z) (x y : Z) : Prop :=
  ∃ p, pixel_at img x y = Some p
       ∧ is_white_ish (pr p) (pg p) (pb p) tol = true.

(** Some coordinate of [cs] addresses the pixel of row-major index [i]. *)
Definition covers (w : Z) (cs : list (Z * Z)) (i : nat) : bool :=
  existsb (λ c, bool_decide (Z.to_nat (c.2 * w + c.1) = i)) cs.

(** *** Sample images *)

Definition white : Pixel := mkPixel 255 255 255 255.

(** 2×2 sheet: two white corners, a near-white and a red pixel. *)
Definition sheet_img : Image :=
  mkImage 2 2 [white; mkPixel 250 240 230 255;
               mkPixel 200 30 30 255; white].

(** 4×1 strip, white ends, one pixel at distance 36 from white. *)
Definition ramp_img : Image :=
  mkImage 4 1 [white; mkPixel 255 255 219 255; white; white].

(** 4×1 strip, white ends, an opaque pixel at distance 100 and a nearly
    transparent black one at distance 765. *)
Definition far_img : Image :=
  mkImage 4 1 [white; mkPixel 255 255 155 255; mkPixel 0 0 0 10; white].

(** 4×1 strip, white ends, a translucent pixel at distance 105 and an
    opaque one at distance 35. *)
Definition edge_img : Image :=
  mkImage 4 1 [white; mkPixel 150 255 255 100; mkPixel 255 220 255 255;
               white].

(** 1×2 column: black above white. *)
Definition column_img : Image := mkImage 1 2 [mkPixel 0 0 0 255; white].

(** 1×1 image. *)
Definition dot_img : Image := mkImage 1 1 [mkPixel 12 34 56 78].

(** Images without pixels. *)
Definition flat_img : Image := mkImage 3 0 [].
Definition thin_img : Image := mkImage 0 3 [].

(** [mark f k l]: [l] with its first [k] elements replaced by their image
    under [f]: the pixel list after [k] iterations of a pixel loop. *)
Definition mark {A} (f : A → A) (k : nat) (l : list A) : list A :=
  (f <$> take k l) ++ drop k l.

(* ===================================================================== *)
(** ** File level: paths, files and [main]                                *)
(* ===================================================================== *)

(** *** [os.path.join] (POSIX)

    A component that starts with the separator replaces the path built so
    far; otherwise it is appended, after a separator unless the path is
    empty or already ends with one. *)

Definition starts_with_sep (s : string) : bool :=
  match s with
  | String c _ => Ascii.eqb c "/"%char
  | EmptyString => false
  end.

Fixpoint ends_with_sep (s : string) : bool :=
  match s with
  | EmptyString => false
  | String c EmptyString => Ascii.eqb c "/"%char
  | String _ s' => ends_with_sep s'
  end.

Definition join1 (path b : string) : string :=
  if starts_with_sep b then b
  else if String.eqb path EmptyString || ends_with_sep path then path +:+ b
  else path +:+ "/" +:+ b.

Definition os_path_join (a : string) (p : list string) : string :=
  foldl join1 a p.

(** *** The files

    The image files by path, each as the RGBA image that [Image.open] and
    [convert('RGBA')] give for it, which is also what
    [img.save(path, 'PNG')] leaves there.  Directories are not
    represented: [os.makedirs(backup_dir, exist_ok=True)] is taken to
    succeed. *)
Abbreviation FS := (gmap string Image).

Inductive failure : Type :=
  | FileNotFoundError (path : string)   (* opening or copying a missing file *)
  | Uncaught (e : exn).                 (* an exception of the image code *)

Inductive outcome (A : Type) : Type :=
  | Done (x : A)
  | Failed (e : failure).
Arguments Done {A} x.
Arguments Failed {A} e.

(** A statement sequence acting on the files: the files it leaves, also
    when it fails, and its value or failure. *)
Definition io (A : Type) : Type := FS → FS * outcome A.

Global Instance io_ret : MRet io := λ A x fs, (fs, Done x).

Global Instance io_bind : MBind io := λ A B k m fs,
  match m fs with
  | (fs', Done x) => k x fs'
  | (fs', Failed e) => (fs', Failed e)
  end.

(** [os.path.exists(path)] *)
Definition os_path_exists (path : string) : io bool :=
  λ fs, (fs, Done (bool_decide (is_Some (fs !! path)))).

(** [shutil.copy2(src, dst)] *)
Definition shutil_copy2 (src dst : string) : io () :=
  λ fs, match fs !! src with
        | Some file => (<[dst := file]> fs, Done ())
        | None => (fs, Failed (FileNotFoundError src))
        end.

(** [process_sprite_sheet(input_path, output_path)]: lines 86-89 open the
    file, [process_sprite_sheet] above is lines 91-127 and line 129 saves
    the result. *)
Definition process_sprite_sheet_file (input_path output_path : string)
  : io () :=
  λ fs, match fs !! input_path with
        | None => (fs, Failed (FileNotFoundError input_path))
        | Some img =>
            match process_sprite_sheet img with
            | Ok out => (<[output_path := out]> fs, Done ())
            | Raise e => (fs, Failed (Uncaught e))
            end
        end.

(** [main()], with [script_dir] the value of [os.path.dirname(__file__)]. *)
Definition main (script_dir : string) : io () :=
  let assets_dir :=
    os_path_join script_dir [".."; "src"; "game"; "assets"] in
  let gta1_input := os_path_join assets_dir ["gta_1.png"] in
  let gta1_output := os_path_join assets_dir ["gta_1.png"] in
  let gta2_input := os_path_join assets_dir ["gta_2.png"] in
  let gta2_output := os_path_join assets_dir ["gta_2.png"] in
  let backup_dir := os_path_join assets_dir ["backups"] in
  found ← os_path_exists gta1_input;
  (if found : bool then
     let backup_path := os_path_join backup_dir ["gta_1_original.png"] in
     saved ← os_path_exists backup_path;
     (if negb saved then shutil_copy2 gta1_input backup_path
      else mret ());;
     process_sprite_sheet_file gta1_input gta1_output
   else mret ());;
  found ← os_path_exists gta2_input;
  (if found : bool then
     let backup_path := os_path_join backup_dir ["gta_2_original.png"] in
     saved ← os_path_exists backup_path;
     (if negb saved then shutil_copy2 gta2_input backup_path
      else mret ());;
     process_sprite_sheet_file gta2_input gta2_output
   else mret ()).

(** *** The paths [main] works on, by their names in the source *)

Definition assets_dir (script_dir : string) : string :=
  os_path_join script_dir [".."; "src"; "game"; "assets"].

(** [gta1_input] (also [gta1_output]) and [gta2_input]. *)
Definition gta1_path (script_dir : string) : string :=
  os_path_join (assets_dir script_dir) ["gta_1.png"].
Definition gta2_path (script_dir : string) : string :=
  os_path_join (assets_dir script_dir) ["gta_2.png"].

(** The two values of [backup_path]. *)
Definition backup1_path (script_dir : string) : string :=
  os_path_join (os_path_join (assets_dir script_dir) ["backups"])
    ["gta_1_original.png"].
Definition backup2_path (script_dir : string) : string :=
  os_path_join (os_path_join (assets_dir script_dir) ["backups"])
    ["gta_2_original.png"].

(** Lines 148-154 and 156-162: what [main] does for one sheet. *)
Definition sheet_block (sheet backup : string) : io () :=
  found ← os_path_exists sheet;
  if found : bool then
    saved ← os_path_exists backup;
    (if negb saved then shutil_copy2 sheet backup else mret ());;
    process_sprite_sheet_file sheet sheet
  else mret ().



(** *** Sample files *)


(** Both sheets, the first with an older backup. *)
Definition used_fs : FS :=
  {[ gta1_path "scripts" := sheet_img;
     backup1_path "scripts" := far_img;
     gta2_path "scripts" := ramp_img ]}.


(* ===================================================================== *)
(** ** Loop rules                                                         *)
(* ===================================================================== *)

Section loop_rules.
Context {S : Type}.

(** Invariant rule for [for k in range(m, m + n)]: the body keeps the
    invariant and does not raise, so the loop ends in a state
    satisfying it at [m + n]. *)
Lemma for_in_seqZ_inv (I : Z → S → Prop) (body : Z → S → result S) m n s :
  0 ≤ n →
  I m s →
  (∀ k t, m ≤ k < m + n → I k t → ∃ t', body k t = Ok t' ∧ I (k + 1) t') →
  ∃ s', for_in (seqZ m n) body s = Ok s' ∧ I (m + n) s'.
Proof.
  intros Hn. revert m s.
  pattern n. apply natlike_ind; [| |exact Hn]; clear n Hn.
  - intros m s HI _. rewrite seqZ_nil by lia. exists s.
    by rewrite Z.add_0_r.
  - intros n Hn IH m s HI Hbody.
    rewrite seqZ_cons by lia. rewrite Z.pred_succ. simpl.
    destruct (Hbody m s) as (t & -> & Ht); [lia|done|]. simpl.
    destruct (IH (Z.succ m) t) as (s' & Hs' & HI').
    + by replace (Z.succ m) with (m + 1) by lia.
    + intros k u Hk. apply Hbody. lia.
    + exists s'. split; [done|].
      by replace (m + Z.succ n) with (Z.succ m + n) by lia.
Qed.

Lemma for_in_range_inv (I : Z → S → Prop) (body : Z → S → result S) n s :
  0 ≤ n →
  I 0 s →
  (∀ k t, 0 ≤ k < n → I k t → ∃ t', body k t = Ok t' ∧ I (k + 1) t') →
  ∃ s', for_in (range n) body s = Ok s' ∧ I n s'.
Proof.
  intros Hn HI Hbody. unfold range.
  destruct (for_in_seqZ_inv I body 0 n s) as (s' & ? & ?); auto.
  exists s'. by rewrite Z.add_0_l in *.
Qed.
End loop_rules.

(* ===================================================================== *)
(** ** Row-major bookkeeping                                              *)
(* ===================================================================== *)

Section mark.
Context {A : Type} (f : A → A).
Implicit Types l : list A.

Lemma mark_lookup_here k l : mark f k l !! k = l !! k.
Proof.
  unfold mark. destruct (decide (k < length l)%nat) as [Hk|Hk].
  - rewrite lookup_app_r; rewrite length_fmap, length_take; [|lia].
    rewrite lookup_drop. f_equal. lia.
  - rewrite take_ge, drop_ge by lia. rewrite app_nil_r.
    rewrite list_lookup_fmap. by rewrite (lookup_ge_None_2 l k) by lia.
Qed.

Lemma mark_S k l x :
  l !! k = Some x → <[k := f x]> (mark f k l) = mark f (S k) l.
Proof.
  intros Hx. pose proof (lookup_lt_Some _ _ _ Hx) as Hk.
  unfold mark.
  rewrite insert_app_r_alt; rewrite length_fmap, length_take; [|lia].
  replace (k - k `min` length l)%nat with 0%nat by lia.
  rewrite (take_S_r _ _ _ Hx), fmap_app, <- app_assoc. f_equal.
  rewrite (drop_S _ _ _ Hx). done.
Qed.

Lemma mark_all k l : (length l ≤ k)%nat → mark f k l = f <$> l.
Proof.
  intros Hk. unfold mark. by rewrite take_ge, drop_ge, app_nil_r by lia.
Qed.
End mark.

(** *** Facts on shapes and pixel access *)

Lemma shape_ok_spec img :
  shape_ok img = true ↔
  0 ≤ width img ∧ 0 ≤ height img
  ∧ Z.of_nat (length (data img)) = width img * height img.
Proof. unfold shape_ok. rewrite !andb_true_iff. lia. Qed.

Lemma wf_image_spec img :
  wf_image img = true ↔
  shape_ok img = true ∧ ∀ p, p ∈ data img → pixel_ok p = true.
Proof.
  unfold wf_image. rewrite andb_true_iff, forallb_forall.
  by setoid_rewrite list_elem_of_In.
Qed.

Lemma locate_in_range img x y :
  0 ≤ x < width img → 0 ≤ y < height img →
  locate img x y = Ok (Z.to_nat (y * width img + x)).
Proof.
  intros Hx Hy. unfold locate, wrap_index.
  repeat case_match; try lia; done.
Qed.

Lemma getpixel_in_range img x y p :
  0 ≤ x < width img → 0 ≤ y < height img →
  data img !! Z.to_nat (y * width img + x) = Some p →
  getpixel img x y = Ok p.
Proof.
  intros Hx Hy Hp. unfold getpixel. rewrite locate_in_range by done.
  simpl. by rewrite Hp.
Qed.

Lemma putpixel_in_range img x y p q :
  0 ≤ x < width img → 0 ≤ y < height img →
  data img !! Z.to_nat (y * width img + x) = Some p →
  putpixel img x y q =
    Ok (mkImage (width img) (height img)
          (<[Z.to_nat (y * width img + x) := q]> (data img))).
Proof.
  intros Hx Hy Hp. unfold putpixel. rewrite locate_in_range by done.
  simpl. apply lookup_lt_Some in Hp. by rewrite decide_True.
Qed.

(** Every in-range coordinate of a well-shaped image holds a pixel. *)
Lemma shape_lookup img x y :
  shape_ok img = true →
  0 ≤ x < width img → 0 ≤ y < height img →
  is_Some (data img !! Z.to_nat (y * width img + x)).
Proof.
  intros (Hw & Hh & Hlen)%shape_ok_spec Hx Hy.
  apply lookup_lt_is_Some. nia.
Qed.

(** A pixel loop whose body rewrites the pixel at [(x, y)] to [f] of it
    maps [f] over the image. *)
Lemma pixel_loop (f : Pixel → Pixel) (step : Z → Z → Image → result Image)
    (img : Image) :
  shape_ok img = true →
  (∀ st x y p,
     width st = width img → height st = height img →
     0 ≤ x < width img → 0 ≤ y < height img →
     data st !! Z.to_nat (y * width img + x) = Some p →
     step x y st =
       Ok (mkImage (width img) (height img)
             (<[Z.to_nat (y * width img + x) := f p]> (data st)))) →
  for_in (range (height img)) (λ y st,
    for_in (range (width img)) (λ x st, step x y st) st) img
  = Ok (mkImage (width img) (height img) (f <$> data img)).
Proof.
  intros Hshape Hstep.
  pose proof Hshape as (Hw & Hh & Hlen)%shape_ok_spec.
  set (w := width img) in *. set (h := height img) in *.
  set (d0 := data img) in *.
  pose (J := λ (k : Z) (st : Image),
    width st = w ∧ height st = h ∧ data st = mark f (Z.to_nat k) d0).
  destruct (for_in_range_inv (λ y, J (y * w))
    (λ y st, for_in (range w) (λ x st, step x y st) st) h img)
    as (st & Hrun & Hw' & Hh' & Hd); [done|by rewrite Z.mul_0_l| |].
  - intros y st Hy HJ.
    destruct (for_in_range_inv (λ x, J (y * w + x))
      (λ x st, step x y st) w st) as (st' & Hrun & HJ');
      [done|by rewrite Z.add_0_r| |].
    + intros x t Hx (Hwt & Hht & Hdt).
      destruct (shape_lookup img x y Hshape Hx Hy) as [p Hp].
      fold w d0 in Hp.
      eexists. split.
      { apply (Hstep t x y p); try done.
        by rewrite Hdt, mark_lookup_here. }
      split_and!; [done..|]. simpl. rewrite Hdt.
      rewrite (mark_S f _ _ _ Hp). f_equal. lia.
    + exists st'. split; [done|].
      by replace ((y + 1) * w) with (y * w + w) by lia.
  - rewrite Hrun. f_equal. destruct st as [w' h' d']; simpl in *.
    subst w' h' d'. f_equal. apply mark_all. lia.
Qed.

(** The float computation of the ramp, on every distance the ramp branch
    sees: truncation of the rounded product is the floor of the exact
    quotient, and the clamp leaves it as it is. *)
Lemma ramp_float k :
  0 ≤ k < 70 →
  (q ← PyFloat.int_truediv k 70; PyFloat.to_int (PyFloat.mul_int q 255))
  = Ok ((k * 255) `div` 70).
Proof.
  intros Hk.
  assert (Forall (λ k,
    (q ← PyFloat.int_truediv k 70; PyFloat.to_int (PyFloat.mul_int q 255))
    = Ok ((k * 255) `div` 70)) (seqZ 0 70)) as Hall.
  { refine (bool_decide_unpack _ _). by vm_compute. }
  rewrite Forall_seqZ in Hall. apply Hall. lia.
Qed.

Lemma shade_pixel_spec avg st x y p :
  0 ≤ x < width st → 0 ≤ y < height st →
  data st !! Z.to_nat (y * width st + x) = Some p →
  shade_pixel avg 35 x y st =
    Ok (mkImage (width st) (height st)
          (<[Z.to_nat (y * width st + x) := shade avg p]> (data st))).
Proof.
  intros Hx Hy Hp. unfold shade_pixel, shade.
  rewrite (getpixel_in_range _ _ _ _ Hx Hy Hp).
  destruct p as [r g b a]. cbn [mbind result_bind pr pg pb pa].
  set (dist := distance avg _).
  change (35 * 3) with 105. change (35 * 2) with 70.
  destruct (Z.ltb_spec dist 35) as [Hlt|Hge].
  - rewrite (proj2 (Z.ltb_lt dist 105)) by lia.
    by apply putpixel_in_range with (p := mkPixel r g b a).
  - destruct (Z.ltb_spec dist 105) as [Hlt|Hge'].
    + pose proof (ramp_float (dist - 35) ltac:(lia)) as Hf.
      unfold mbind, result_bind in Hf |- *.
      destruct (PyFloat.int_truediv (dist - 35) 70) as [q|e]; [|done].
      rewrite Hf.
      rewrite (putpixel_in_range _ _ _ (mkPixel r g b a)) by done.
      do 4 f_equal.
      assert (0 ≤ ((dist - 35) * 255) `div` 70 ≤ 255).
      { split; [apply Z.div_pos; lia|].
        apply Z.div_le_upper_bound; lia. }
      lia.
    + rewrite list_insert_id by done. by destruct st.
Qed.

Lemma background_color_corners img :
  shape_ok img = true → 0 < width img → 0 < height img →
  ∃ c0 c1 c2 c3,
    pixel_at img 0 0 = Some c0
    ∧ pixel_at img (width img - 1) 0 = Some c1
    ∧ pixel_at img 0 (height img - 1) = Some c2
    ∧ pixel_at img (width img - 1) (height img - 1) = Some c3
    ∧ background_color img = Ok (corner_avg c0 c1 c2 c3).
Proof.
  intros Hshape Hw Hh. unfold pixel_at.
  destruct (shape_lookup img 0 0) as [c0 H0]; [done|lia..|].
  destruct (shape_lookup img (width img - 1) 0) as [c1 H1]; [done|lia..|].
  destruct (shape_lookup img 0 (height img - 1)) as [c2 H2]; [done|lia..|].
  destruct (shape_lookup img (width img - 1) (height img - 1)) as [c3 H3];
    [done|lia..|].
  exists c0, c1, c2, c3. split_and!; try done.
  unfold background_color.
  rewrite (getpixel_in_range img 0 0 c0) by (done || lia).
  rewrite (getpixel_in_range img (width img - 1) 0 c1) by (done || lia).
  rewrite (getpixel_in_range img 0 (height img - 1) c2) by (done || lia).
  rewrite (getpixel_in_range img (width img - 1) (height img - 1) c3)
    by (done || lia).
  cbn [mbind result_bind]. unfold corner_avg, py_sum. simpl.
  by rewrite !Z.add_0_l.
Qed.

(** The whole run: on a well-shaped image with at least one pixel the
    processor returns, and its output is [shade] mapped over the input. *)
Lemma process_sprite_sheet_shade img :
  shape_ok img = true → 0 < width img → 0 < height img →
  ∃ avg,
    background_color img = Ok avg
    ∧ process_sprite_sheet img =
        Ok (mkImage (width img) (height img) (shade avg <$> data img)).
Proof.
  intros Hshape Hw Hh.
  destruct (background_color_corners img)
    as (c0 & c1 & c2 & c3 & _ & _ & _ & _ & Hbg); [done..|].
  exists (corner_avg c0 c1 c2 c3). split; [done|].
  unfold process_sprite_sheet. rewrite Hbg. cbn [mbind result_bind].
  apply (pixel_loop (shade (corner_avg c0 c1 c2 c3))); [done|].
  intros st x y p Hwst Hhst Hx Hy Hp.
  rewrite <- Hwst, <- Hhst in *. by apply shade_pixel_spec.
Qed.

Lemma zero_size_raises img :
  width img = 0 ∨ height img = 0 →
  process_sprite_sheet img = Raise IndexError.
Proof.
  intros Hz. unfold process_sprite_sheet, background_color.
  assert (getpixel img 0 0 = Raise IndexError) as ->; [|done].
  unfold getpixel, locate, wrap_index. simpl.
  destruct Hz as [-> | ->]; simpl; [done|].
  by rewrite orb_true_r.
Qed.

Lemma foldl_append {A B} (g : B → A) (body : list A → B → list A) l acc :
  (∀ acc x, body acc x = acc ++ [g x]) →
  foldl body acc l = acc ++ (g <$> l).
Proof.
  intros Hbody. revert acc. induction l as [|x l IH]; intros acc; simpl.
  - by rewrite app_nil_r.
  - by rewrite Hbody, IH, <- app_assoc.
Qed.

Lemma remove_white_background_whiten img t :
  remove_white_background img (Some t) =
    mkImage (width img) (height img) (whiten t <$> data img).
Proof.
  unfold remove_white_background. f_equal. simpl.
  rewrite (foldl_append (whiten t)); [done|].
  intros acc [r g b a]. unfold whiten. simpl. by case_match.
Qed.

Lemma collect_white_spec img tol :
  shape_ok img = true →
  ∃ s, collect_white img tol = Ok s
       ∧ ∀ x y, (x, y) ∈ s ↔
           (0 ≤ x < width img ∧ 0 ≤ y < height img) ∧ white_at img tol x y.
Proof.
  intros Hshape.
  pose proof Hshape as (Hw & Hh & Hlen)%shape_ok_spec.
  set (w := width img) in *. set (h := height img) in *.
  pose (Inv := λ (x y : Z) (s : gset (Z * Z)), ∀ cx cy,
    (cx, cy) ∈ s ↔
      (0 ≤ cx < w ∧ 0 ≤ cy ∧ (cy < y ∨ cy = y ∧ cx < x))
      ∧ white_at img tol cx cy).
  unfold collect_white. fold w h.
  match goal with |- context [for_in (range h) ?body ∅] =>
    destruct (for_in_range_inv (Inv 0) body h ∅) as (s & Hrun & Hs)
  end; [done| | |].
  - intros cx cy. split; [set_solver|]. lia.
  - intros y s Hy HI. simpl.
    match goal with |- context [for_in (range w) ?body s] =>
      destruct (for_in_range_inv (λ x, Inv x y) body w s)
        as (s' & Hrun & Hs')
    end; [done|done| |].
    + intros x t Hx Ht. simpl.
      destruct (shape_lookup img x y Hshape Hx Hy) as [p Hp].
      rewrite (getpixel_in_range img x y p) by done.
      destruct p as [r g b a]. cbn [mbind result_bind].
      destruct (is_white_ish r g b tol) eqn:Hwhite; eexists;
        (split; [done|]);
        intros cx cy; [rewrite elem_of_union, elem_of_singleton|];
        rewrite (Ht cx cy); split.
      * intros [[= -> ->] | [? ?]]; [|split; [lia|done]].
        split; [lia|]. by exists (mkPixel r g b a).
      * intros [? Hwh].
        destruct (decide (cx = x ∧ cy = y)) as [[-> ->]|?]; [by left|].
        right. split; [lia|done].
      * intros [? ?]. split; [lia|done].
      * intros [? Hwh]. split; [|done].
        destruct (decide (cx = x ∧ cy = y)) as [[-> ->]|?]; [|lia].
        destruct Hwh as (q & Hq & Hqw). unfold pixel_at in Hq.
        fold w in Hp. fold w in Hq. simplify_eq. simpl in *. congruence.
    + exists s'. split; [exact Hrun|].
      intros cx cy. rewrite (Hs' cx cy).
      split; intros [? ?]; (split; [lia|done]).
  - exists s. split; [exact Hrun|].
    intros cx cy. rewrite (Hs cx cy).
    split; intros [? ?]; (split; [lia|done]).
Qed.

Lemma covers_true w cs i :
  covers w cs i = true ↔
  ∃ x y, (x, y) ∈ cs ∧ Z.to_nat (y * w + x) = i.
Proof.
  unfold covers. rewrite existsb_exists. split.
  - intros ([x y] & Hin%list_elem_of_In & Hd%bool_decide_eq_true). eauto.
  - intros (x & y & Hin%list_elem_of_In & Hd). exists (x, y).
    split; [done|]. by apply bool_decide_eq_true.
Qed.

(** The second loop, for any visiting order: a pixel ends with alpha 0
    when some visited coordinate addresses it and is left alone
    otherwise. *)
Lemma apply_transparency_spec cs img :
  shape_ok img = true →
  (∀ x y, (x, y) ∈ cs → 0 ≤ x < width img ∧ 0 ≤ y < height img) →
  ∃ d,
    apply_transparency cs img = Ok (mkImage (width img) (height img) d)
    ∧ length d = length (data img)
    ∧ ∀ i p, data img !! i = Some p →
        d !! i = Some (if covers (width img) cs i
                       then mkPixel (pr p) (pg p) (pb p) 0 else p).
Proof.
  revert img. induction cs as [|[x y] cs IH]; intros img Hshape Hin.
  - exists (data img). by destruct img.
  - destruct (Hin x y) as [Hx Hy]; [by left|].
    destruct (shape_lookup img x y Hshape Hx Hy) as [p0 Hp0].
    set (k := Z.to_nat (y * width img + x)) in *.
    set (img1 := mkImage (width img) (height img)
                   (<[k := mkPixel (pr p0) (pg p0) (pb p0) 0]> (data img))).
    assert (apply_transparency ((x, y) :: cs) img
            = apply_transparency cs img1) as ->.
    { unfold apply_transparency. simpl.
      rewrite (getpixel_in_range img x y p0) by done.
      destruct p0 as [r g b a]. cbn [mbind result_bind].
      by rewrite (putpixel_in_range img x y (mkPixel r g b a)). }
    destruct (IH img1) as (d & Hrun & Hlen & Hd).
    { apply shape_ok_spec. apply shape_ok_spec in Hshape.
      simpl. by rewrite length_insert. }
    { intros cx cy Hc. apply Hin. by right. }
    exists d. simpl in *. split; [done|].
    split; [by rewrite Hlen, length_insert|].
    intros i p Hp. destruct (decide (i = k)) as [->|Hne].
    + assert (p = p0) as -> by congruence.
      rewrite (Hd k (mkPixel (pr p0) (pg p0) (pb p0) 0)).
      2:{ rewrite list_lookup_insert_eq; [done|]. by eapply lookup_lt_Some. }
      simpl. rewrite bool_decide_true by done. simpl. by case_match.
    + rewrite (Hd i p) by (by rewrite list_lookup_insert_ne).
      by rewrite bool_decide_false.
Qed.

(** The order in which the set of coordinates is visited does not
    matter. *)
Lemma apply_transparency_order cs1 cs2 img :
  shape_ok img = true →
  (∀ x y, (x, y) ∈ cs1 → 0 ≤ x < width img ∧ 0 ≤ y < height img) →
  (∀ c, c ∈ cs1 ↔ c ∈ cs2) →
  apply_transparency cs1 img = apply_transparency cs2 img.
Proof.
  intros Hshape Hin Hsame.
  destruct (apply_transparency_spec cs1 img) as (d1 & -> & Hl1 & Hd1);
    [done..|].
  destruct (apply_transparency_spec cs2 img) as (d2 & -> & Hl2 & Hd2);
    [done| |].
  { intros x y Hc. apply Hin. by apply Hsame. }
  do 2 f_equal. apply list_eq. intros i.
  destruct (data img !! i) as [p|] eqn:Hp.
  - rewrite (Hd1 i p Hp), (Hd2 i p Hp).
    assert (covers (width img) cs1 i = covers (width img) cs2 i) as ->;
      [|done].
    apply eq_true_iff_eq. rewrite !covers_true.
    by setoid_rewrite Hsame.
  - apply lookup_ge_None in Hp.
    rewrite !(proj2 (lookup_ge_None _ _)); [done|lia..].
Qed.

Lemma remove_near_white_with_edges_whiten img t :
  shape_ok img = true →
  remove_near_white_with_edges img (Some t) =
    Ok (mkImage (width img) (height img) (whiten t <$> data img)).
Proof.
  intros Hshape. unfold remove_near_white_with_edges. simpl.
  destruct (collect_white_spec img t Hshape) as (s & -> & Hs).
  cbn [mbind result_bind].
  destruct (apply_transparency_spec (elements s) img) as (d & -> & Hl & Hd);
    [done| |].
  { intros x y Hc%elem_of_elements. by apply Hs in Hc as [? _]. }
  do 2 f_equal. apply list_eq. intros i. rewrite list_lookup_fmap.
  destruct (data img !! i) as [p|] eqn:Hp; simpl.
  - rewrite (Hd i p Hp). f_equal. unfold whiten.
    change (_ && _ && _) with (is_white_ish (pr p) (pg p) (pb p) t).
    assert (covers (width img) (elements s) i
            = is_white_ish (pr p) (pg p) (pb p) t) as ->; [|done].
    apply eq_true_iff_eq. rewrite covers_true. split.
    + intros (x & y & Hc%elem_of_elements & Hi).
      apply Hs in Hc as [_ (q & Hq & Hw)]. unfold pixel_at in Hq.
      rewrite Hi in Hq. congruence.
    + intros Hw.
      pose proof Hshape as (Hw0 & Hh0 & Hlen)%shape_ok_spec.
      pose proof (lookup_lt_Some _ _ _ Hp) as Hi.
      assert (0 < width img) as Hwpos by nia.
      exists (Z.of_nat i `mod` width img), (Z.of_nat i `div` width img).
      pose proof (Z.mod_pos_bound (Z.of_nat i) (width img) Hwpos).
      pose proof (Z.div_mod (Z.of_nat i) (width img) ltac:(lia)) as Hdm.
      assert (Z.to_nat (Z.of_nat i `div` width img * width img
                        + Z.of_nat i `mod` width img) = i) as Hidx by lia.
      split; [|done]. apply elem_of_elements, Hs. split.
      * split; [lia|]. split; [apply Z.div_pos; lia|].
        apply Z.div_lt_upper_bound; lia.
      * exists p. unfold pixel_at. by rewrite Hidx.
  - apply lookup_ge_None in Hp. apply lookup_ge_None. lia.
Qed.

(* ===================================================================== *)
(** ** Facts on [shade] and the branches                                  *)
(* ===================================================================== *)

(** The body of the pixel loop, read by branch. *)
Lemma shade_pixel_branch avg tolerance x y st :
  shade_pixel avg tolerance x y st =
  (p ← getpixel st x y;
   match branch_of (distance avg p) tolerance with
   | Cleared => putpixel st x y (mkPixel (pr p) (pg p) (pb p) 0)
   | Ramp =>
       q ← PyFloat.int_truediv (distance avg p - tolerance) (tolerance * 2);
       alpha ← PyFloat.to_int (PyFloat.mul_int q 255);
       putpixel st x y (mkPixel (pr p) (pg p) (pb p) (clamp 0 255 alpha))
   | Untouched => Ok st
   end).
Proof.
  unfold shade_pixel, branch_of.
  destruct (getpixel st x y) as [[r g b a]|e]; [|done].
  cbn [mbind result_bind pr pg pb].
  by repeat case_match.
Qed.

Lemma distance_rgb avg p q :
  pr q = pr p → pg q = pg p → pb q = pb p →
  distance avg q = distance avg p.
Proof. destruct avg as [[ar ag] ab]. simpl. by intros -> -> ->. Qed.

Lemma shade_rgb avg p :
  pr (shade avg p) = pr p ∧ pg (shade avg p) = pg p
  ∧ pb (shade avg p) = pb p.
Proof. unfold shade. by repeat case_match. Qed.

Lemma shade_alpha avg p :
  pa (shade avg p) =
    if distance avg p <? 35 then 0
    else if distance avg p <? 105
         then ((distance avg p - 35) * 255) `div` 70
         else pa p.
Proof. unfold shade. by repeat case_match. Qed.

Lemma shade_idemp avg p : shade avg (shade avg p) = shade avg p.
Proof.
  destruct (shade_rgb avg p) as (Hr & Hg & Hb).
  pose proof (distance_rgb avg p (shade avg p) Hr Hg Hb) as Hd.
  unfold shade at 1. rewrite Hd, Hr, Hg, Hb.
  unfold shade. by repeat case_match.
Qed.

Lemma ramp_bounds d : 35 ≤ d < 105 → 0 ≤ ((d - 35) * 255) `div` 70 ≤ 251.
Proof.
  intros Hd. split; [apply Z.div_pos; lia|].
  apply Z.lt_succ_r. apply Z.div_lt_upper_bound; lia.
Qed.

Lemma avg_pair a b : (a + a + b + b) `div` 4 = (a + b) `div` 2.
Proof. Z.div_mod_to_equations. lia. Qed.

Lemma avg_same a : (a + a + a + a) `div` 4 = a.
Proof. Z.div_mod_to_equations. lia. Qed.

Lemma corner_avg_rgb c0 c1 c2 c3 c0' c1' c2' c3' :
  (pr c0' = pr c0 ∧ pg c0' = pg c0 ∧ pb c0' = pb c0) →
  (pr c1' = pr c1 ∧ pg c1' = pg c1 ∧ pb c1' = pb c1) →
  (pr c2' = pr c2 ∧ pg c2' = pg c2 ∧ pb c2' = pb c2) →
  (pr c3' = pr c3 ∧ pg c3' = pg c3 ∧ pb c3' = pb c3) →
  corner_avg c0' c1' c2' c3' = corner_avg c0 c1 c2 c3.
Proof.
  unfold corner_avg.
  by intros (-> & -> & ->) (-> & -> & ->) (-> & -> & ->) (-> & -> & ->).
Qed.

(** Pointwise reading of a run of the processor. *)
Lemma process_sprite_sheet_pointwise img :
  shape_ok img = true → 0 < width img → 0 < height img →
  ∃ avg out,
    background_color img = Ok avg
    ∧ process_sprite_sheet img = Ok out
    ∧ width out = width img ∧ height out = height img
    ∧ length (data out) = length (data img)
    ∧ ∀ i p, data img !! i = Some p → data out !! i = Some (shade avg p).
Proof.
  intros Hshape Hw Hh.
  destruct (process_sprite_sheet_shade img) as (avg & Hbg & Hrun); [done..|].
  eexists avg, _. split_and!; try done; simpl.
  - by rewrite length_fmap.
  - intros i p Hp. by rewrite list_lookup_fmap, Hp.
Qed.

Lemma wf_image_shape img : wf_image img = true → shape_ok img = true.
Proof. by intros [? _]%wf_image_spec. Qed.

Lemma wf_image_pixel img i p :
  wf_image img = true → data img !! i = Some p →
  (0 ≤ pr p ≤ 255 ∧ 0 ≤ pg p ≤ 255) ∧ (0 ≤ pb p ≤ 255 ∧ 0 ≤ pa p ≤ 255).
Proof.
  intros [_ Hpx]%wf_image_spec Hp.
  specialize (Hpx p (list_elem_of_lookup_2 _ _ _ Hp)).
  unfold pixel_ok, channel_ok in Hpx.
  rewrite !andb_true_iff in Hpx. lia.
Qed.

(* ===================================================================== *)
(** ** Properties of the background-colour-adaptive processor             *)
(* ===================================================================== *)

(** C1, as the code has it.  For every pixel whose Manhattan distance
    [dist] to the background estimate satisfies 35 ≤ dist < 105, the
    output keeps R, G and B and has alpha
    clamp(0, 255, floor((dist − 35) × 255 / 70)): [int()] truncates the
    float product, it does not round it to the nearest integer. *)
Theorem C1_ramp_alpha_floor img :
  wf_image img = true → 0 < width img → 0 < height img →
  ∃ avg out,
    background_color img = Ok avg
    ∧ process_sprite_sheet img = Ok out
    ∧ ∀ i p, data img !! i = Some p →
        35 ≤ distance avg p < 3 * 35 →
        data out !! i =
          Some (mkPixel (pr p) (pg p) (pb p)
                  (clamp 0 255 (((distance avg p - 35) * 255) `div` (2 * 35)))).
Proof.
  intros Hwf%wf_image_shape Hw Hh.
  destruct (process_sprite_sheet_pointwise img)
    as (avg & out & Hbg & Hrun & _ & _ & _ & Hout); [done..|].
  exists avg, out. split_and!; [done..|].
  intros i p Hp Hd. rewrite (Hout i p Hp). f_equal.
  pose proof (ramp_bounds _ Hd). unfold shade, clamp.
  change (2 * 35) with 70.
  rewrite (proj2 (Z.ltb_ge _ 35)), (proj2 (Z.ltb_lt _ 105)) by lia.
  f_equal. lia.
Qed.

Lemma C1_ramp_alpha_floor_witness :
  wf_image ramp_img = true ∧ 0 < width ramp_img ∧ 0 < height ramp_img
  ∧ ∃ out,
      process_sprite_sheet ramp_img = Ok out
      ∧ data ramp_img !! 1%nat = Some (mkPixel 255 255 219 255)
      ∧ 35 ≤ distance (255, 255, 255) (mkPixel 255 255 219 255) < 3 * 35
      ∧ data out !! 1%nat = Some (mkPixel 255 255 219 3).
Proof.
  split; [reflexivity|]. split; [reflexivity|]. split; [reflexivity|].
  destruct (C1_ramp_alpha_floor ramp_img)
    as (avg & out & Hbg & Hrun & Hpx); [reflexivity..|].
  assert (avg = (255, 255, 255)) as ->.
  { vm_compute in Hbg. congruence. }
  exists out. split; [exact Hrun|]. split; [reflexivity|].
  split; [by vm_compute|].
  apply (Hpx 1%nat (mkPixel 255 255 219 255)); [reflexivity|by vm_compute].
Defined.

(** C1 as worded fails: the pixel of [ramp_img] at distance 36 gets alpha
    3 (255/70 = 3.64… truncated), where rounding would give 4. *)
Lemma C1_round_counterexample :
  background_color ramp_img = Ok (255, 255, 255)
  ∧ data ramp_img !! 1%nat = Some (mkPixel 255 255 219 255)
  ∧ distance (255, 255, 255) (mkPixel 255 255 219 255) = 36
  ∧ process_sprite_sheet ramp_img =
      Ok (mkImage 4 1 [mkPixel 255 255 255 0; mkPixel 255 255 219 3;
                       mkPixel 255 255 255 0; mkPixel 255 255 255 0])
  ∧ spec_ramp_alpha 36 = 4
  ∧ pa (mkPixel 255 255 219 3) ≠ spec_ramp_alpha 36.
Proof. split_and!; by vm_compute. Qed.

(** C3.  For every image the processor returns on, the output has the
    input's dimensions and every pixel keeps its R, G and B, whichever
    branch classified it; only alpha can differ. *)
Theorem C3_rgb_preserved img :
  wf_image img = true → 0 < width img → 0 < height img →
  ∃ out,
    process_sprite_sheet img = Ok out
    ∧ width out = width img ∧ height out = height img
    ∧ length (data out) = length (data img)
    ∧ ∀ i p, data img !! i = Some p →
        ∃ q, data out !! i = Some q
             ∧ pr q = pr p ∧ pg q = pg p ∧ pb q = pb p.
Proof.
  intros Hwf%wf_image_shape Hw Hh.
  destruct (process_sprite_sheet_pointwise img)
    as (avg & out & _ & Hrun & Hwo & Hho & Hlen & Hout); [done..|].
  exists out. split_and!; [done..|].
  intros i p Hp. exists (shade avg p). split; [by apply Hout|].
  apply shade_rgb.
Qed.

Lemma C3_rgb_preserved_witness :
  wf_image sheet_img = true ∧ 0 < width sheet_img ∧ 0 < height sheet_img
  ∧ ∃ out,
      process_sprite_sheet sheet_img = Ok out
      ∧ width out = width sheet_img ∧ height out = height sheet_img
      ∧ length (data out) = length (data sheet_img)
      ∧ ∀ i p, data sheet_img !! i = Some p →
          ∃ q, data out !! i = Some q
               ∧ pr q = pr p ∧ pg q = pg p ∧ pb q = pb p.
Proof.
  split; [reflexivity|]. split; [reflexivity|]. split; [reflexivity|].
  apply (C3_rgb_preserved sheet_img); reflexivity.
Defined.

(** C5.  On an image of zero width or zero height the processor raises
    at its first corner read (Pillow's [IndexError], the failure the
    specification names InvalidInput) and so reaches no [img.save]: there
    is no output image.  On every image of positive width and height it
    returns an image. *)
Theorem C5_zero_size_fails img :
  (width img = 0 ∨ height img = 0 →
     process_sprite_sheet img = Raise IndexError)
  ∧ (wf_image img = true → 0 < width img → 0 < height img →
     ∃ out, process_sprite_sheet img = Ok out).
Proof.
  split; [apply zero_size_raises|].
  intros Hwf%wf_image_shape Hw Hh.
  destruct (process_sprite_sheet_shade img) as (avg & _ & Hrun); [done..|].
  eauto.
Qed.

Lemma C5_zero_size_fails_witness :
  ((width thin_img = 0 ∨ height thin_img = 0)
   ∧ process_sprite_sheet thin_img = Raise IndexError)
  ∧ ((width flat_img = 0 ∨ height flat_img = 0)
     ∧ process_sprite_sheet flat_img = Raise IndexError)
  ∧ (wf_image sheet_img = true ∧ 0 < width sheet_img
     ∧ 0 < height sheet_img
     ∧ ∃ out, process_sprite_sheet sheet_img = Ok out).
Proof.
  split; [|split].
  - split; [left; reflexivity|].
    apply (proj1 (C5_zero_size_fails thin_img)). left; reflexivity.
  - split; [right; reflexivity|].
    apply (proj1 (C5_zero_size_fails flat_img)). right; reflexivity.
  - split; [reflexivity|]. split; [reflexivity|]. split; [reflexivity|].
    apply (proj2 (C5_zero_size_fails sheet_img)); reflexivity.
Defined.

(** C6, as the code has it.  For a fixed background estimate the output
    alpha is non-decreasing in the distance, provided the farther pixel,
    when it lies at distance ≥ 105 and is therefore left untouched, is
    fully opaque in the input (alpha 255). *)
Theorem C6_monotone_opaque_far img :
  wf_image img = true → 0 < width img → 0 < height img →
  ∃ avg out,
    background_color img = Ok avg
    ∧ process_sprite_sheet img = Ok out
    ∧ ∀ i j p1 p2,
        data img !! i = Some p1 → data img !! j = Some p2 →
        distance avg p1 < distance avg p2 →
        (3 * 35 ≤ distance avg p2 → pa p2 = 255) →
        ∃ q1 q2, data out !! i = Some q1 ∧ data out !! j = Some q2
                 ∧ pa q1 ≤ pa q2.
Proof.
  intros Hwf Hw Hh. pose proof (wf_image_shape _ Hwf) as Hshape.
  destruct (process_sprite_sheet_pointwise img)
    as (avg & out & Hbg & Hrun & _ & _ & _ & Hout); [done..|].
  exists avg, out. split_and!; [done..|].
  intros i j p1 p2 Hp1 Hp2 Hlt Hfar.
  exists (shade avg p1), (shade avg p2).
  split_and!; [by apply Hout..|].
  rewrite !shade_alpha.
  pose proof (wf_image_pixel img i p1 Hwf Hp1) as [_ [_ Ha1]].
  destruct (Z.ltb_spec (distance avg p2) 35);
    [by rewrite (proj2 (Z.ltb_lt (distance avg p1) 35)) by lia|].
  destruct (Z.ltb_spec (distance avg p2) 105).
  - pose proof (ramp_bounds (distance avg p2) ltac:(lia)).
    destruct (Z.ltb_spec (distance avg p1) 35); [lia|].
    rewrite (proj2 (Z.ltb_lt (distance avg p1) 105)) by lia.
    apply Z.div_le_mono; lia.
  - rewrite Hfar by lia.
    destruct (Z.ltb_spec (distance avg p1) 35); [lia|].
    destruct (Z.ltb_spec (distance avg p1) 105); [|lia].
    pose proof (ramp_bounds (distance avg p1) ltac:(lia)). lia.
Qed.

Lemma C6_monotone_opaque_far_witness :
  wf_image sheet_img = true ∧ 0 < width sheet_img ∧ 0 < height sheet_img
  ∧ data sheet_img !! 1%nat = Some (mkPixel 250 240 230 255)
  ∧ data sheet_img !! 0%nat = Some (mkPixel 255 255 255 255)
  ∧ distance (240, 195, 192) (mkPixel 250 240 230 255)
    < distance (240, 195, 192) (mkPixel 255 255 255 255)
  ∧ ∃ out q1 q2,
      process_sprite_sheet sheet_img = Ok out
      ∧ data out !! 1%nat = Some q1 ∧ data out !! 0%nat = Some q2
      ∧ pa q1 ≤ pa q2.
Proof.
  split; [reflexivity|]. split; [reflexivity|]. split; [reflexivity|].
  split; [reflexivity|]. split; [reflexivity|]. split; [reflexivity|].
  destruct (C6_monotone_opaque_far sheet_img)
    as (avg & out & Hbg & Hrun & Hmono); [reflexivity..|].
  assert (avg = (240, 195, 192)) as ->.
  { vm_compute in Hbg. congruence. }
  destruct (Hmono 1%nat 0%nat (mkPixel 250 240 230 255)
              (mkPixel 255 255 255 255))
    as (q1 & q2 & H1 & H2 & Hle); [reflexivity..|].
  exists out, q1, q2. split; [exact Hrun|]. split; [exact H1|].
  split; [exact H2|exact Hle].
Defined.

(** C6 as worded fails: in [far_img] the pixel at distance 100 ends with
    alpha 236 while the pixel at distance 765 keeps its input alpha 10. *)
Lemma C6_monotone_counterexample :
  background_color far_img = Ok (255, 255, 255)
  ∧ data far_img !! 1%nat = Some (mkPixel 255 255 155 255)
  ∧ data far_img !! 2%nat = Some (mkPixel 0 0 0 10)
  ∧ distance (255, 255, 255) (mkPixel 255 255 155 255) = 100
  ∧ distance (255, 255, 255) (mkPixel 0 0 0 10) = 765
  ∧ process_sprite_sheet far_img =
      Ok (mkImage 4 1 [mkPixel 255 255 255 0; mkPixel 255 255 155 236;
                       mkPixel 0 0 0 10; mkPixel 255 255 255 0])
  ∧ ¬ (pa (mkPixel 255 255 155 236) ≤ pa (mkPixel 0 0 0 10)).
Proof. split_and!; by vm_compute. Qed.

(** C7.  The processor is idempotent: on every image of positive width
    and height it returns an image on which it returns that same image
    again. *)
Theorem C7_idempotent img :
  wf_image img = true → 0 < width img → 0 < height img →
  ∃ out,
    process_sprite_sheet img = Ok out
    ∧ process_sprite_sheet out = Ok out.
Proof.
  intros Hshape%wf_image_shape Hw Hh.
  destruct (background_color_corners img)
    as (c0 & c1 & c2 & c3 & H0 & H1 & H2 & H3 & Hbg); [done..|].
  destruct (process_sprite_sheet_shade img) as (avg & Hbg' & Hrun); [done..|].
  set (out := mkImage (width img) (height img) (shade avg <$> data img))
    in *.
  assert (shape_ok out = true) as Hshape'.
  { apply shape_ok_spec. apply shape_ok_spec in Hshape.
    simpl. by rewrite length_fmap. }
  exists out. split; [done|].
  destruct (background_color_corners out)
    as (d0 & d1 & d2 & d3 & G0 & G1 & G2 & G3 & Hbgo); [done..|].
  destruct (process_sprite_sheet_shade out) as (avg' & Hbgo' & Hrun');
    [done..|].
  unfold pixel_at in *. simpl in G0, G1, G2, G3.
  rewrite list_lookup_fmap in G0, G1, G2, G3.
  rewrite H0 in G0. rewrite H1 in G1. rewrite H2 in G2. rewrite H3 in G3.
  simpl in G0, G1, G2, G3.
  injection G0 as <-. injection G1 as <-.
  injection G2 as <-. injection G3 as <-.
  assert (avg' = avg) as ->.
  { rewrite Hbgo in Hbgo'. rewrite Hbg in Hbg'.
    injection Hbgo' as <-. injection Hbg' as <-.
    apply corner_avg_rgb; apply shade_rgb. }
  rewrite Hrun'. unfold out. simpl. do 2 f_equal.
  rewrite <- list_fmap_compose. apply list_fmap_ext.
  intros i p _. apply shade_idemp.
Qed.

Lemma C7_idempotent_witness :
  wf_image sheet_img = true ∧ 0 < width sheet_img ∧ 0 < height sheet_img
  ∧ ∃ out,
      process_sprite_sheet sheet_img = Ok out
      ∧ process_sprite_sheet out = Ok out.
Proof.
  split; [reflexivity|]. split; [reflexivity|]. split; [reflexivity|].
  apply (C7_idempotent sheet_img); reflexivity.
Defined.

(** C8, as the code has it.  A pixel at distance exactly 35 takes the ramp
    branch and gets alpha exactly 0; a pixel at distance exactly 105 takes
    neither write and is left as it is, alpha included: it is fully
    opaque in the output exactly when it was in the input. *)
Theorem C8_boundary img :
  wf_image img = true → 0 < width img → 0 < height img →
  ∃ avg out,
    background_color img = Ok avg
    ∧ process_sprite_sheet img = Ok out
    ∧ ∀ i p, data img !! i = Some p →
        (distance avg p = 35 →
           branch_of (distance avg p) 35 = Ramp
           ∧ data out !! i = Some (mkPixel (pr p) (pg p) (pb p) 0))
        ∧ (distance avg p = 3 * 35 →
           branch_of (distance avg p) 35 = Untouched
           ∧ data out !! i = Some p).
Proof.
  intros Hwf%wf_image_shape Hw Hh.
  destruct (process_sprite_sheet_pointwise img)
    as (avg & out & Hbg & Hrun & _ & _ & _ & Hout); [done..|].
  exists avg, out. split_and!; [done..|].
  intros i p Hp. rewrite (Hout i p Hp). unfold shade.
  split; intros ->; by split.
Qed.

Lemma C8_boundary_witness :
  wf_image edge_img = true ∧ 0 < width edge_img ∧ 0 < height edge_img
  ∧ data edge_img !! 2%nat = Some (mkPixel 255 220 255 255)
  ∧ distance (255, 255, 255) (mkPixel 255 220 255 255) = 35
  ∧ data edge_img !! 1%nat = Some (mkPixel 150 255 255 100)
  ∧ distance (255, 255, 255) (mkPixel 150 255 255 100) = 3 * 35
  ∧ ∃ out,
      process_sprite_sheet edge_img = Ok out
      ∧ data out !! 2%nat = Some (mkPixel 255 220 255 0)
      ∧ data out !! 1%nat = Some (mkPixel 150 255 255 100).
Proof.
  split; [reflexivity|]. split; [reflexivity|]. split; [reflexivity|].
  split; [reflexivity|]. split; [reflexivity|].
  split; [reflexivity|]. split; [reflexivity|].
  destruct (C8_boundary edge_img)
    as (avg & out & Hbg & Hrun & Hpx); [reflexivity..|].
  assert (avg = (255, 255, 255)) as ->.
  { vm_compute in Hbg. congruence. }
  exists out. split; [exact Hrun|]. split.
  - apply (Hpx 2%nat (mkPixel 255 220 255 255)); reflexivity.
  - apply (Hpx 1%nat (mkPixel 150 255 255 100)); reflexivity.
Defined.

(** C8 as worded fails in its second half: the pixel of [edge_img] at
    distance 105 has input alpha 100 and leaves with alpha 100, not 255. *)
Lemma C8_opaque_counterexample :
  background_color edge_img = Ok (255, 255, 255)
  ∧ data edge_img !! 1%nat = Some (mkPixel 150 255 255 100)
  ∧ distance (255, 255, 255) (mkPixel 150 255 255 100) = 105
  ∧ process_sprite_sheet edge_img =
      Ok (mkImage 4 1 [mkPixel 255 255 255 0; mkPixel 150 255 255 100;
                       mkPixel 255 220 255 0; mkPixel 255 255 255 0])
  ∧ pa (mkPixel 150 255 255 100) ≠ 255.
Proof. split_and!; by vm_compute. Qed.

(** C9, as the code has it.  The background estimate is the per-channel
    floor average of the pixels at (0,0), (width−1,0), (0,height−1) and
    (width−1,height−1), and no image with a pixel makes the reads fail.
    In a 1×N image the reads coincide in pairs and the estimate is the
    floor average of the top and the bottom pixel; in a 1×1 image all four
    coincide and the estimate is that pixel's own colour. *)
Theorem C9_background_estimate img :
  wf_image img = true → 0 < width img → 0 < height img →
  ∃ c0 c1 c2 c3,
    pixel_at img 0 0 = Some c0
    ∧ pixel_at img (width img - 1) 0 = Some c1
    ∧ pixel_at img 0 (height img - 1) = Some c2
    ∧ pixel_at img (width img - 1) (height img - 1) = Some c3
    ∧ background_color img =
        Ok ((pr c0 + pr c1 + pr c2 + pr c3) `div` 4,
            (pg c0 + pg c1 + pg c2 + pg c3) `div` 4,
            (pb c0 + pb c1 + pb c2 + pb c3) `div` 4)
    ∧ (width img = 1 →
       background_color img =
         Ok ((pr c0 + pr c2) `div` 2, (pg c0 + pg c2) `div` 2,
             (pb c0 + pb c2) `div` 2))
    ∧ (width img = 1 → height img = 1 →
       background_color img = Ok (pr c0, pg c0, pb c0)).
Proof.
  intros Hwf%wf_image_shape Hw Hh.
  destruct (background_color_corners img)
    as (c0 & c1 & c2 & c3 & H0 & H1 & H2 & H3 & Hbg); [done..|].
  exists c0, c1, c2, c3. split_and!; try done.
  - intros Hw1. rewrite Hw1 in *. change (1 - 1) with 0 in *.
    assert (c1 = c0) as -> by congruence.
    assert (c3 = c2) as -> by congruence.
    rewrite Hbg. unfold corner_avg. by rewrite !avg_pair.
  - intros Hw1 Hh1. rewrite Hw1, Hh1 in *. change (1 - 1) with 0 in *.
    assert (c1 = c0) as -> by congruence.
    assert (c2 = c0) as -> by congruence.
    assert (c3 = c0) as -> by congruence.
    rewrite Hbg. unfold corner_avg. by rewrite !avg_same.
Qed.

Lemma C9_background_estimate_witness :
  (wf_image dot_img = true ∧ 0 < width dot_img ∧ 0 < height dot_img
   ∧ width dot_img = 1 ∧ height dot_img = 1
   ∧ ∃ c0, pixel_at dot_img 0 0 = Some c0
           ∧ background_color dot_img = Ok (pr c0, pg c0, pb c0))
  ∧ (wf_image column_img = true ∧ 0 < width column_img
     ∧ 0 < height column_img ∧ width column_img = 1
     ∧ ∃ c0 c2,
         pixel_at column_img 0 0 = Some c0
         ∧ pixel_at column_img 0 (height column_img - 1) = Some c2
         ∧ background_color column_img =
             Ok ((pr c0 + pr c2) `div` 2, (pg c0 + pg c2) `div` 2,
                 (pb c0 + pb c2) `div` 2)).
Proof.
  split.
  - split; [reflexivity|]. split; [reflexivity|]. split; [reflexivity|].
    split; [reflexivity|]. split; [reflexivity|].
    destruct (C9_background_estimate dot_img)
      as (c0 & c1 & c2 & c3 & H0 & _ & _ & _ & _ & _ & Hdot);
      [reflexivity..|].
    exists c0. split; [exact H0|]. apply Hdot; reflexivity.
  - split; [reflexivity|]. split; [reflexivity|]. split; [reflexivity|].
    split; [reflexivity|].
    destruct (C9_background_estimate column_img)
      as (c0 & c1 & c2 & c3 & H0 & _ & H2 & _ & _ & Hcol & _);
      [reflexivity..|].
    exists c0, c2. split; [exact H0|]. split; [exact H2|].
    apply Hcol; reflexivity.
Defined.

(** C9 as worded fails for 1×N: in the 1×2 image [column_img] the
    estimate is (127,127,127), the colour of neither of its pixels. *)
Lemma C9_column_counterexample :
  width column_img = 1 ∧ height column_img = 2
  ∧ data column_img = [mkPixel 0 0 0 255; mkPixel 255 255 255 255]
  ∧ background_color column_img = Ok (127, 127, 127)
  ∧ (127, 127, 127) ≠ (0, 0, 0)
  ∧ (127, 127, 127) ≠ (255, 255, 255).
Proof. split_and!; by vm_compute. Qed.

(* ===================================================================== *)
(** ** Properties of the two whiteners                                    *)
(* ===================================================================== *)

Lemma whiten_decide t p :
  whiten t p =
    if decide (255 - t < pr p ∧ 255 - t < pg p ∧ 255 - t < pb p)
    then mkPixel (pr p) (pg p) (pb p) 0 else p.
Proof.
  unfold whiten.
  destruct (Z.gtb_spec (pr p) (255 - t)), (Z.gtb_spec (pg p) (255 - t)),
    (Z.gtb_spec (pb p) (255 - t)); simpl;
    case_decide; (done || lia).
Qed.

(** C2.  For every image and every tolerance, the edge-aware whitener
    run with that tolerance returns exactly the image the fixed-threshold
    whitener produces with it: same size, and the same R, G, B and alpha
    at every pixel. *)
Theorem C2_whiteners_agree img t :
  wf_image img = true →
  remove_near_white_with_edges img (Some t)
  = Ok (remove_white_background img (Some t)).
Proof.
  intros Hshape%wf_image_shape.
  rewrite remove_white_background_whiten.
  by apply remove_near_white_with_edges_whiten.
Qed.

Lemma C2_whiteners_agree_witness :
  wf_image sheet_img = true
  ∧ remove_near_white_with_edges sheet_img (Some 30)
    = Ok (remove_white_background sheet_img (Some 30)).
Proof.
  split; [reflexivity|].
  apply (C2_whiteners_agree sheet_img 30). reflexivity.
Defined.

(** C4.  With tolerance [t] the fixed-threshold whitener turns a pixel
    (r, g, b, a) into (r, g, b, 0) when r > 255 − t, g > 255 − t and
    b > 255 − t, and leaves it as it is, alpha included, otherwise; the
    size is kept.  A call without a tolerance uses 30. *)
Theorem C4_fixed_threshold img t :
  remove_white_background img (Some t) =
    mkImage (width img) (height img)
      ((λ p, if decide (pr p > 255 - t ∧ pg p > 255 - t ∧ pb p > 255 - t)
             then mkPixel (pr p) (pg p) (pb p) 0
             else p) <$> data img)
  ∧ remove_white_background img None
    = remove_white_background img (Some 30).
Proof.
  split; [|done].
  rewrite remove_white_background_whiten. f_equal.
  apply list_fmap_ext. intros _ p _. rewrite whiten_decide.
  repeat case_decide; (done || lia).
Qed.

(** C10.  With a tolerance of 256 or more the test holds at every pixel
    of a well-formed image, so every pixel leaves with alpha 0 (and its
    own R, G, B); the whitener raises nothing, whatever the tolerance. *)
Theorem C10_large_tolerance img t :
  wf_image img = true → 256 ≤ t →
  remove_white_background img (Some t) =
    mkImage (width img) (height img)
      ((λ p, mkPixel (pr p) (pg p) (pb p) 0) <$> data img).
Proof.
  intros Hwf Ht. rewrite remove_white_background_whiten. f_equal.
  apply list_fmap_ext. intros i p Hp.
  pose proof (wf_image_pixel img i p Hwf Hp).
  rewrite whiten_decide. rewrite decide_True; [done|lia].
Qed.

Lemma C10_large_tolerance_witness :
  wf_image sheet_img = true ∧ 256 ≤ 256
  ∧ remove_white_background sheet_img (Some 256) =
      mkImage (width sheet_img) (height sheet_img)
        ((λ p, mkPixel (pr p) (pg p) (pb p) 0) <$> data sheet_img).
Proof.
  split; [reflexivity|]. split; [lia|].
  apply (C10_large_tolerance sheet_img 256); [reflexivity|lia].
Defined.

(* ===================================================================== *)
(** ** The specification's scenarios, run on the embedding                *)
(* ===================================================================== *)

Example scenario_all_white :
  process_sprite_sheet (mkImage 2 2 [white; white; white; white])
  = Ok (mkImage 2 2 (replicate 4 (mkPixel 255 255 255 0))).
Proof. by vm_compute. Qed.

Example scenario_red_block :
  let red := mkPixel 255 0 0 255 in
  let clear := mkPixel 255 255 255 0 in
  process_sprite_sheet
    (mkImage 4 4 [white; white; white; white;
                  white; red;   red;   white;
                  white; red;   red;   white;
                  white; white; white; white])
  = Ok (mkImage 4 4 [clear; clear; clear; clear;
                     clear; red;   red;   clear;
                     clear; red;   red;   clear;
                     clear; clear; clear; clear]).
Proof. by vm_compute. Qed.

Example scenario_fixed_threshold :
  remove_white_background (mkImage 1 1 [mkPixel 230 230 230 255]) (Some 30)
  = mkImage 1 1 [mkPixel 230 230 230 0].
Proof. by vm_compute. Qed.

Example scenario_default_tolerances :
  let grey := mkImage 1 1 [mkPixel 220 220 220 255] in
  remove_white_background grey None = grey
  ∧ remove_near_white_with_edges grey None
    = Ok (mkImage 1 1 [mkPixel 220 220 220 0]).
Proof. by vm_compute. Qed.


(* ===================================================================== *)
(** ** Paths                                                              *)
(* ===================================================================== *)

Lemma str_app_cons c x y : String c x +:+ y = String c (x +:+ y).
Proof. reflexivity. Qed.

Lemma str_app_assoc x y z : (x +:+ y) +:+ z = x +:+ y +:+ z.
Proof.
  induction x as [|c x IH]; [done|].
  by rewrite !str_app_cons, IH.
Qed.

Lemma str_app_nonempty x c y :
  String.eqb (x +:+ String c y) EmptyString = false.
Proof. by destruct x. Qed.

Lemma ends_with_sep_app x c y :
  ends_with_sep (x +:+ String c y) = ends_with_sep (String c y).
Proof.
  induction x as [|d x IH]; [done|].
  rewrite str_app_cons, <- IH. by destruct x.
Qed.

(** A component that does not start with the separator is appended,
    after a separator or not. *)
Lemma join1_append a c y :
  Ascii.eqb c "/" = false →
  join1 a (String c y) = a +:+ String c y
  ∨ join1 a (String c y) = a +:+ String "/" (String c y).
Proof.
  intros Hc. unfold join1. simpl. rewrite Hc.
  destruct (_ || _); [by left|by right].
Qed.

(** After a path that ends in a name, the separator is inserted. *)
Lemma join1_after_name x d z c y :
  Ascii.eqb c "/" = false →
  ends_with_sep (String d z) = false →
  join1 (x +:+ String d z) (String c y)
  = x +:+ String d z +:+ String "/" (String c y).
Proof.
  intros Hc Hd. unfold join1. simpl. rewrite Hc.
  rewrite str_app_nonempty, ends_with_sep_app, Hd.
  cbn [orb]. by rewrite !str_app_assoc.
Qed.

(** The four paths of [main] share a prefix and differ after it. *)
Lemma main_paths sd :
  ∃ prefix,
    gta1_path sd = prefix +:+ "gta_1.png"
    ∧ gta2_path sd = prefix +:+ "gta_2.png"
    ∧ backup1_path sd = prefix +:+ "backups/gta_1_original.png"
    ∧ backup2_path sd = prefix +:+ "backups/gta_2_original.png".
Proof.
  unfold gta1_path, gta2_path, backup1_path, backup2_path.
  set (a := assets_dir sd). unfold os_path_join. simpl.
  assert (∃ prefix, ∀ c y, Ascii.eqb c "/" = false →
            join1 a (String c y) = prefix +:+ String c y)
    as (prefix & Hjoin).
  { unfold join1. destruct (_ || _) eqn:Hsep.
    - exists a. intros c y Hc. simpl. by rewrite Hc.
    - exists (a +:+ "/"). intros c y Hc. simpl.
      by rewrite Hc, str_app_assoc. }
  exists prefix.
  rewrite !Hjoin by done.
  rewrite !(join1_after_name prefix) by done.
  done.
Qed.

Lemma main_paths_distinct sd :
  gta1_path sd ≠ gta2_path sd
  ∧ gta1_path sd ≠ backup1_path sd ∧ gta1_path sd ≠ backup2_path sd
  ∧ gta2_path sd ≠ backup1_path sd ∧ gta2_path sd ≠ backup2_path sd
  ∧ backup1_path sd ≠ backup2_path sd.
Proof.
  destruct (main_paths sd) as (prefix & -> & -> & -> & ->).
  split_and!; by intros ?%(inj (String.append prefix)).
Qed.

(* ===================================================================== *)
(** ** One sheet of [main]                                                *)
(* ===================================================================== *)

Lemma main_blocks sd :
  main sd = (sheet_block (gta1_path sd) (backup1_path sd);;
             sheet_block (gta2_path sd) (backup2_path sd)).
Proof. reflexivity. Qed.

(** The block, statement by statement. *)
Lemma sheet_block_run sheet backup fs :
  sheet ≠ backup →
  sheet_block sheet backup fs =
    match fs !! sheet with
    | None => (fs, Done ())
    | Some img =>
        let fs1 := match fs !! backup with
                   | Some _ => fs
                   | None => <[backup := img]> fs
                   end in
        match process_sprite_sheet img with
        | Ok out => (<[sheet := out]> fs1, Done ())
        | Raise e => (fs1, Failed (Uncaught e))
        end
    end.
Proof.
  intros Hne.
  unfold sheet_block, mbind, io_bind, mret, io_ret, os_path_exists,
    shutil_copy2, process_sprite_sheet_file.
  simpl.
  destruct (fs !! sheet) as [img|] eqn:Hs; [|done]. simpl.
  destruct (fs !! backup) as [old|] eqn:Hb; simpl.
  - by rewrite Hs.
  - by rewrite Hs, lookup_insert_ne, Hs.
Qed.

Lemma sheet_block_frame sheet backup fs p :
  sheet ≠ backup → p ≠ sheet → p ≠ backup →
  (sheet_block sheet backup fs).1 !! p = fs !! p.
Proof.
  intros Hne Hp1 Hp2. rewrite sheet_block_run by done.
  repeat case_match; simplify_map_eq; done.
Qed.

Lemma sheet_block_backup_kept sheet backup fs :
  sheet ≠ backup → is_Some (fs !! backup) →
  (sheet_block sheet backup fs).1 !! backup = fs !! backup.
Proof.
  intros Hne [old Hold]. rewrite sheet_block_run by done.
  repeat case_match; simplify_map_eq; done.
Qed.



(* ===================================================================== *)
(** ** Further facts used below                                           *)
(* ===================================================================== *)

Lemma remove_white_background_default img tolerance :
  remove_white_background img tolerance =
    mkImage (width img) (height img)
      (whiten (default 30 tolerance) <$> data img).
Proof.
  destruct tolerance as [t|]; apply remove_white_background_whiten.
Qed.

Lemma remove_near_white_with_edges_default img tolerance :
  shape_ok img = true →
  remove_near_white_with_edges img tolerance =
    Ok (mkImage (width img) (height img)
          (whiten (default 40 tolerance) <$> data img)).
Proof.
  intros Hshape.
  destruct tolerance as [t|];
    by apply remove_near_white_with_edges_whiten.
Qed.

Lemma whiten_rgb t p :
  pr (whiten t p) = pr p ∧ pg (whiten t p) = pg p ∧ pb (whiten t p) = pb p.
Proof. unfold whiten. by case_match. Qed.

Lemma whiten_alpha t p :
  pa (whiten t p) =
    if decide (255 - t < pr p ∧ 255 - t < pg p ∧ 255 - t < pb p)
    then 0 else pa p.
Proof. rewrite whiten_decide. by case_decide. Qed.

Lemma whiten_whiten t1 t2 p :
  whiten t2 (whiten t1 p) = whiten (t1 `max` t2) p.
Proof.
  rewrite (whiten_decide t1 p).
  destruct (decide (255 - t1 < pr p ∧ 255 - t1 < pg p ∧ 255 - t1 < pb p))
    as [H1|H1]; rewrite !whiten_decide; simpl;
    repeat case_decide; (done || lia).
Qed.

Lemma pixel_ok_spec p :
  pixel_ok p = true ↔
  (0 ≤ pr p ≤ 255 ∧ 0 ≤ pg p ≤ 255) ∧ (0 ≤ pb p ≤ 255 ∧ 0 ≤ pa p ≤ 255).
Proof.
  unfold pixel_ok, channel_ok. rewrite !andb_true_iff. lia.
Qed.

Lemma shade_ok avg p : pixel_ok p = true → pixel_ok (shade avg p) = true.
Proof.
  rewrite !pixel_ok_spec. intros Hp.
  destruct (shade_rgb avg p) as (-> & -> & ->). rewrite shade_alpha.
  destruct (Z.ltb_spec (distance avg p) 35); [lia|].
  destruct (Z.ltb_spec (distance avg p) 105); [|lia].
  pose proof (ramp_bounds (distance avg p)). lia.
Qed.

Lemma whiten_ok t p : pixel_ok p = true → pixel_ok (whiten t p) = true.
Proof.
  rewrite !pixel_ok_spec. intros Hp.
  destruct (whiten_rgb t p) as (-> & -> & ->). rewrite whiten_alpha.
  case_decide; lia.
Qed.

Lemma wf_image_fmap img f :
  wf_image img = true →
  (∀ p, pixel_ok p = true → pixel_ok (f p) = true) →
  wf_image (mkImage (width img) (height img) (f <$> data img)) = true.
Proof.
  intros [Hshape Hpx]%wf_image_spec Hf. apply wf_image_spec. split.
  - apply shape_ok_spec. apply shape_ok_spec in Hshape. simpl.
    by rewrite length_fmap.
  - simpl. intros q (p & -> & Hp)%list_elem_of_fmap. auto.
Qed.



(* ===================================================================== *)
(** ** More on the two whiteners                                          *)
(* ===================================================================== *)

(** X1.  With a tolerance of 0 or less the fixed-threshold whitener
    changes nothing in a well-formed image: no 8-bit channel exceeds
    255 − tolerance. *)
Theorem X1_nonpositive_tolerance_identity img t :
  wf_image img = true → t ≤ 0 →
  remove_white_background img (Some t) = img.
Proof.
  intros Hwf Ht. rewrite remove_white_background_whiten.
  destruct img as [w h d]. simpl in *. f_equal.
  rewrite <- (list_fmap_id d) at 2. apply list_fmap_ext.
  intros i p Hp.
  pose proof (wf_image_pixel _ i p Hwf Hp).
  rewrite whiten_decide. rewrite decide_False; [done|lia].
Qed.

Lemma X1_nonpositive_tolerance_identity_witness :
  wf_image sheet_img = true ∧ 0 ≤ 0
  ∧ remove_white_background sheet_img (Some 0) = sheet_img.
Proof.
  split; [reflexivity|]. split; [lia|].
  apply (X1_nonpositive_tolerance_identity sheet_img 0); [reflexivity|lia].
Defined.

(** X2.  Whitening with tolerance t1 and then with t2 is whitening once
    with the larger of the two; so the whitener is idempotent and two
    runs commute. *)
Theorem X2_whiten_twice_max img t1 t2 :
  remove_white_background (remove_white_background img (Some t1)) (Some t2)
  = remove_white_background img (Some (t1 `max` t2)).
Proof.
  rewrite !remove_white_background_whiten. simpl. f_equal.
  rewrite <- list_fmap_compose. apply list_fmap_ext.
  intros i p _. apply whiten_whiten.
Qed.

(** X3.  Raising the tolerance only clears more: a pixel that leaves
    with alpha 0 at tolerance t leaves with alpha 0 and the same colour at
    every tolerance t' ≥ t. *)
Theorem X3_tolerance_monotone img t t' i q :
  t ≤ t' →
  data (remove_white_background img (Some t)) !! i = Some q →
  pa q = 0 →
  data (remove_white_background img (Some t')) !! i = Some q.
Proof.
  intros Ht. rewrite !remove_white_background_whiten. simpl.
  rewrite !list_lookup_fmap.
  destruct (data img !! i) as [p|]; [|done]. simpl.
  intros [= <-] Ha. f_equal.
  rewrite whiten_alpha in Ha. rewrite !whiten_decide.
  destruct p as [r g b a]; simpl in *.
  repeat case_decide; simplify_eq; (done || lia).
Qed.

Lemma X3_tolerance_monotone_witness :
  30 ≤ 40
  ∧ data (remove_white_background sheet_img (Some 30)) !! 1%nat
    = Some (mkPixel 250 240 230 0)
  ∧ pa (mkPixel 250 240 230 0) = 0
  ∧ data (remove_white_background sheet_img (Some 40)) !! 1%nat
    = Some (mkPixel 250 240 230 0).
Proof.
  split; [lia|]. split; [reflexivity|]. split; [reflexivity|].
  apply (X3_tolerance_monotone sheet_img 30 40 1%nat);
    [lia|reflexivity|reflexivity].
Defined.

(** X4.  The fixed-threshold whitener keeps an image well formed and
    never makes a pixel more opaque, whatever the tolerance (given or
    defaulted). *)
Theorem X4_whitener_keeps_wf img tolerance :
  wf_image img = true →
  wf_image (remove_white_background img tolerance) = true
  ∧ ∀ i p q,
      data img !! i = Some p →
      data (remove_white_background img tolerance) !! i = Some q →
      pa q ≤ pa p.
Proof.
  intros Hwf. rewrite remove_white_background_default. split.
  - apply wf_image_fmap; [done|]. intros p. apply whiten_ok.
  - simpl. intros i p q Hp. rewrite list_lookup_fmap, Hp. simpl.
    intros [= <-]. pose proof (wf_image_pixel _ i p Hwf Hp).
    rewrite whiten_alpha. case_decide; lia.
Qed.

Lemma X4_whitener_keeps_wf_witness :
  wf_image sheet_img = true
  ∧ wf_image (remove_white_background sheet_img None) = true
  ∧ ∀ i p q,
      data sheet_img !! i = Some p →
      data (remove_white_background sheet_img None) !! i = Some q →
      pa q ≤ pa p.
Proof.
  split; [reflexivity|].
  apply (X4_whitener_keeps_wf sheet_img None). reflexivity.
Defined.



(** X6.  Called without a tolerance, the edge-aware whitener uses 40: it
    returns what the fixed-threshold whitener returns for tolerance 40,
    which is also what whitening the fixed-threshold default output (30)
    again at 40 gives. *)
Theorem X6_edge_aware_default img :
  wf_image img = true →
  remove_near_white_with_edges img None
  = Ok (remove_white_background img (Some 40))
  ∧ remove_white_background img (Some 40)
    = remove_white_background (remove_white_background img None) (Some 40).
Proof.
  intros Hshape%wf_image_shape. split.
  - rewrite remove_near_white_with_edges_default by done.
    by rewrite remove_white_background_whiten.
  - rewrite !remove_white_background_default. simpl. f_equal.
    rewrite <- list_fmap_compose. apply list_fmap_ext.
    intros i p _. simpl. by rewrite whiten_whiten.
Qed.

Lemma X6_edge_aware_default_witness :
  wf_image sheet_img = true
  ∧ remove_near_white_with_edges sheet_img None
    = Ok (remove_white_background sheet_img (Some 40))
  ∧ remove_white_background sheet_img (Some 40)
    = remove_white_background (remove_white_background sheet_img None)
        (Some 40).
Proof.
  split; [reflexivity|].
  apply (X6_edge_aware_default sheet_img). reflexivity.
Defined.

(** X7.  The edge-aware whitener's result does not depend on the order
    in which Python iterates over [to_remove]: visiting the collected
    coordinates in any order, even with repetitions, gives the image the
    whitener returns. *)
Theorem X7_any_iteration_order img tolerance to_remove order :
  wf_image img = true →
  collect_white img (default 40 tolerance) = Ok to_remove →
  list_to_set order = to_remove →
  apply_transparency order img
  = remove_near_white_with_edges img tolerance.
Proof.
  intros Hshape%wf_image_shape Hcollect Horder.
  destruct (collect_white_spec img (default 40 tolerance) Hshape)
    as (s & Hs & Hin).
  rewrite Hcollect in Hs. injection Hs as <-.
  unfold remove_near_white_with_edges. simpl. rewrite Hcollect.
  cbn [mbind result_bind].
  apply apply_transparency_order; [done| |].
  - intros x y Hc. apply Hin. rewrite <- Horder.
    by apply elem_of_list_to_set.
  - intros c. rewrite elem_of_elements, <- Horder.
    by rewrite elem_of_list_to_set.
Qed.

Lemma X7_any_iteration_order_witness :
  wf_image sheet_img = true
  ∧ collect_white sheet_img (default 40 (Some 30))
    = Ok {[ (0, 0); (1, 0); (1, 1) ]}
  ∧ list_to_set [(1, 1); (0, 0); (1, 0); (0, 0)]
    = ({[ (0, 0); (1, 0); (1, 1) ]} : gset (Z * Z))
  ∧ apply_transparency [(1, 1); (0, 0); (1, 0); (0, 0)] sheet_img
    = remove_near_white_with_edges sheet_img (Some 30).
Proof.
  split; [reflexivity|]. split; [by vm_compute|]. split; [by vm_compute|].
  apply (X7_any_iteration_order sheet_img (Some 30)
           {[ (0, 0); (1, 0); (1, 1) ]});
    [reflexivity|by vm_compute|by vm_compute].
Defined.

(* ===================================================================== *)
(** ** More on the background-colour-adaptive processor                   *)
(* ===================================================================== *)

(** X8.  The processor keeps an image well formed: on a well-formed
    image with a pixel it returns a well-formed image (every alpha it
    writes is within 0..255). *)
Theorem X8_processor_keeps_wf img :
  wf_image img = true → 0 < width img → 0 < height img →
  ∃ out, process_sprite_sheet img = Ok out ∧ wf_image out = true.
Proof.
  intros Hwf Hw Hh.
  destruct (process_sprite_sheet_shade img) as (avg & _ & Hrun);
    [by apply wf_image_shape|done..|].
  eexists. split; [exact Hrun|].
  apply wf_image_fmap; [done|]. intros p. apply shade_ok.
Qed.

Lemma X8_processor_keeps_wf_witness :
  wf_image sheet_img = true ∧ 0 < width sheet_img ∧ 0 < height sheet_img
  ∧ ∃ out, process_sprite_sheet sheet_img = Ok out ∧ wf_image out = true.
Proof.
  split; [reflexivity|]. split; [reflexivity|]. split; [reflexivity|].
  apply (X8_processor_keeps_wf sheet_img); reflexivity.
Defined.

(** X9.  On a well-formed image the background estimate is itself an
    8-bit colour, and every pixel lies at a distance between 0 and 765
    from it. *)
Theorem X9_estimate_in_range img :
  wf_image img = true → 0 < width img → 0 < height img →
  ∃ avg_r avg_g avg_b,
    background_color img = Ok (avg_r, avg_g, avg_b)
    ∧ 0 ≤ avg_r ≤ 255 ∧ 0 ≤ avg_g ≤ 255 ∧ 0 ≤ avg_b ≤ 255
    ∧ ∀ i p, data img !! i = Some p →
        0 ≤ distance (avg_r, avg_g, avg_b) p ≤ 765.
Proof.
  intros Hwf Hw Hh.
  destruct (background_color_corners img)
    as (c0 & c1 & c2 & c3 & H0 & H1 & H2 & H3 & Hbg);
    [by apply wf_image_shape|done..|].
  unfold pixel_at in *.
  pose proof (wf_image_pixel _ _ _ Hwf H0).
  pose proof (wf_image_pixel _ _ _ Hwf H1).
  pose proof (wf_image_pixel _ _ _ Hwf H2).
  pose proof (wf_image_pixel _ _ _ Hwf H3).
  eexists _, _, _. split; [exact Hbg|].
  assert (∀ a b c d, 0 ≤ a ≤ 255 → 0 ≤ b ≤ 255 → 0 ≤ c ≤ 255 →
            0 ≤ d ≤ 255 → 0 ≤ (a + b + c + d) `div` 4 ≤ 255) as Havg.
  { intros. Z.div_mod_to_equations. lia. }
  split_and!; try (apply Havg; lia).
  intros i p Hp. pose proof (wf_image_pixel _ _ _ Hwf Hp).
  pose proof (Havg (pr c0) (pr c1) (pr c2) (pr c3)).
  pose proof (Havg (pg c0) (pg c1) (pg c2) (pg c3)).
  pose proof (Havg (pb c0) (pb c1) (pb c2) (pb c3)).
  unfold distance. lia.
Qed.

Lemma X9_estimate_in_range_witness :
  wf_image sheet_img = true ∧ 0 < width sheet_img ∧ 0 < height sheet_img
  ∧ ∃ avg_r avg_g avg_b,
      background_color sheet_img = Ok (avg_r, avg_g, avg_b)
      ∧ 0 ≤ avg_r ≤ 255 ∧ 0 ≤ avg_g ≤ 255 ∧ 0 ≤ avg_b ≤ 255
      ∧ ∀ i p, data sheet_img !! i = Some p →
          0 ≤ distance (avg_r, avg_g, avg_b) p ≤ 765.
Proof.
  split; [reflexivity|]. split; [reflexivity|]. split; [reflexivity|].
  apply (X9_estimate_in_range sheet_img); reflexivity.
Defined.

(** X10.  When the four corners have one colour, that colour is the
    background estimate, and every pixel of that colour, the corners
    among them, leaves fully transparent. *)
Theorem X10_uniform_corners img c0 c1 c2 c3 r g b :
  wf_image img = true → 0 < width img → 0 < height img →
  pixel_at img 0 0 = Some c0 →
  pixel_at img (width img - 1) 0 = Some c1 →
  pixel_at img 0 (height img - 1) = Some c2 →
  pixel_at img (width img - 1) (height img - 1) = Some c3 →
  Forall (λ c, pr c = r ∧ pg c = g ∧ pb c = b) [c0; c1; c2; c3] →
  ∃ out,
    background_color img = Ok (r, g, b)
    ∧ process_sprite_sheet img = Ok out
    ∧ ∀ i p, data img !! i = Some p →
        pr p = r → pg p = g → pb p = b →
        data out !! i = Some (mkPixel r g b 0).
Proof.
  intros Hshape%wf_image_shape Hw Hh H0 H1 H2 H3 Hsame.
  destruct (background_color_corners img)
    as (d0 & d1 & d2 & d3 & G0 & G1 & G2 & G3 & Hbg); [done..|].
  rewrite H0 in G0. rewrite H1 in G1. rewrite H2 in G2. rewrite H3 in G3.
  injection G0 as <-. injection G1 as <-.
  injection G2 as <-. injection G3 as <-.
  apply Forall_cons in Hsame as [(Hr0 & Hg0 & Hb0) Hsame].
  apply Forall_cons in Hsame as [(Hr1 & Hg1 & Hb1) Hsame].
  apply Forall_cons in Hsame as [(Hr2 & Hg2 & Hb2) Hsame].
  apply Forall_cons in Hsame as [(Hr3 & Hg3 & Hb3) _].
  assert (corner_avg c0 c1 c2 c3 = (r, g, b)) as Havg.
  { unfold corner_avg.
    rewrite Hr0, Hr1, Hr2, Hr3, Hg0, Hg1, Hg2, Hg3, Hb0, Hb1, Hb2, Hb3.
    by rewrite !avg_same. }
  rewrite Havg in Hbg.
  destruct (process_sprite_sheet_pointwise img)
    as (avg & out & Hbg' & Hrun & _ & _ & _ & Hout); [done..|].
  assert (avg = (r, g, b)) as -> by congruence.
  exists out. split_and!; [done..|].
  intros i p Hp Hr Hg Hb. rewrite (Hout i p Hp). f_equal.
  assert (distance (r, g, b) p = 0) as Hd by (simpl; lia).
  unfold shade. rewrite Hd. simpl. by rewrite Hr, Hg, Hb.
Qed.

Lemma X10_uniform_corners_witness :
  wf_image ramp_img = true ∧ 0 < width ramp_img ∧ 0 < height ramp_img
  ∧ ∃ out,
      background_color ramp_img = Ok (255, 255, 255)
      ∧ process_sprite_sheet ramp_img = Ok out
      ∧ ∀ i p, data ramp_img !! i = Some p →
          pr p = 255 → pg p = 255 → pb p = 255 →
          data out !! i = Some (mkPixel 255 255 255 0).
Proof.
  split; [reflexivity|]. split; [reflexivity|]. split; [reflexivity|].
  apply (X10_uniform_corners ramp_img white white white white);
    try reflexivity.
  repeat constructor.
Defined.

(** X11.  The ramp stops short of full opacity: a pixel within distance
    105 of the estimate leaves with alpha at most 251, so a pixel is
    fully opaque in the output only if it is at distance 105 or more and
    was fully opaque, and is then untouched. *)
Theorem X11_opaque_only_if_far img :
  wf_image img = true → 0 < width img → 0 < height img →
  ∃ avg out,
    background_color img = Ok avg
    ∧ process_sprite_sheet img = Ok out
    ∧ ∀ i p q, data img !! i = Some p → data out !! i = Some q →
        (distance avg p < 105 → pa q ≤ 251)
        ∧ (pa q = 255 → 105 ≤ distance avg p ∧ q = p).
Proof.
  intros Hshape%wf_image_shape Hw Hh.
  destruct (process_sprite_sheet_pointwise img)
    as (avg & out & Hbg & Hrun & _ & _ & _ & Hout); [done..|].
  exists avg, out. split_and!; [done..|].
  intros i p q Hp Hq. rewrite (Hout i p Hp) in Hq. injection Hq as <-.
  rewrite shade_alpha. unfold shade.
  destruct (Z.ltb_spec (distance avg p) 35); [split; [lia|done]|].
  destruct (Z.ltb_spec (distance avg p) 105); [|split; [lia|done]].
  pose proof (ramp_bounds (distance avg p)). split; lia.
Qed.

Lemma X11_opaque_only_if_far_witness :
  wf_image sheet_img = true ∧ 0 < width sheet_img ∧ 0 < height sheet_img
  ∧ ∃ avg out,
      background_color sheet_img = Ok avg
      ∧ process_sprite_sheet sheet_img = Ok out
      ∧ ∀ i p q, data sheet_img !! i = Some p → data out !! i = Some q →
          (distance avg p < 105 → pa q ≤ 251)
          ∧ (pa q = 255 → 105 ≤ distance avg p ∧ q = p).
Proof.
  split; [reflexivity|]. split; [reflexivity|]. split; [reflexivity|].
  apply (X11_opaque_only_if_far sheet_img); reflexivity.
Defined.

(** X12.  A 1×1 image always leaves fully transparent: its only pixel is
    its own background estimate, whatever its colour and alpha. *)
Theorem X12_single_pixel_cleared p :
  process_sprite_sheet (mkImage 1 1 [p])
  = Ok (mkImage 1 1 [mkPixel (pr p) (pg p) (pb p) 0]).
Proof.
  destruct (process_sprite_sheet_shade (mkImage 1 1 [p]))
    as (avg & Hbg & ->); [done..|].
  assert (avg = (pr p, pg p, pb p)) as ->.
  { revert Hbg. unfold background_color. cbn. unfold py_sum. cbn.
    intros [= <-]. f_equal; [f_equal|]; Z.div_mod_to_equations; lia. }
  assert (distance (pr p, pg p, pb p) p = 0) as Hd by (simpl; lia).
  simpl. unfold shade. by rewrite Hd.
Qed.

(* ===================================================================== *)
(** ** [main]: backups and the two sheets                                 *)
(* ===================================================================== *)

Lemma main_run sd fs :
  main sd fs =
    match sheet_block (gta1_path sd) (backup1_path sd) fs with
    | (fs', Done _) => sheet_block (gta2_path sd) (backup2_path sd) fs'
    | (fs', Failed e) => (fs', Failed e)
    end.
Proof. reflexivity. Qed.

(** Opens [main] into its two blocks over four distinct, abstract paths. *)
Ltac open_main sd :=
  rewrite ?main_run;
  let H := fresh "Hpaths" in
  pose proof (main_paths_distinct sd) as H;
  destruct H as (? & ? & ? & ? & ? & ?);
  set (g1 := gta1_path sd) in *; set (g2 := gta2_path sd) in *;
  set (b1 := backup1_path sd) in *; set (b2 := backup2_path sd) in *;
  clearbody g1 g2 b1 b2;
  rewrite ?(sheet_block_run g1 b1) by done.

(** X13.  [main] never overwrites a backup: a backup file that exists
    before the run is the same file after it, whether or not the run
    fails. *)
Theorem X13_main_keeps_backups sd fs :
  (is_Some (fs !! backup1_path sd) →
   (main sd fs).1 !! backup1_path sd = fs !! backup1_path sd)
  ∧ (is_Some (fs !! backup2_path sd) →
     (main sd fs).1 !! backup2_path sd = fs !! backup2_path sd).
Proof.
  open_main sd. split; intros [old Hold].
  - repeat case_match; simplify_eq; simpl;
      rewrite ?sheet_block_frame by done; by simplify_map_eq.
  - repeat case_match; simplify_eq; simpl;
      rewrite ?sheet_block_backup_kept by (by simplify_map_eq);
      by simplify_map_eq.
Qed.

Lemma X13_main_keeps_backups_witness :
  is_Some (used_fs !! backup1_path "scripts")
  ∧ (main "scripts" used_fs).1 !! backup1_path "scripts"
    = used_fs !! backup1_path "scripts".
Proof.
  split; [vm_compute; by eexists|].
  apply (proj1 (X13_main_keeps_backups "scripts" used_fs)).
  vm_compute; by eexists.
Defined.

(** X14.  [main] touches no file but the two sheets and their two
    backups. *)
Theorem X14_main_frame sd fs path :
  path ≠ gta1_path sd → path ≠ gta2_path sd →
  path ≠ backup1_path sd → path ≠ backup2_path sd →
  (main sd fs).1 !! path = fs !! path.
Proof.
  open_main sd. intros ? ? ? ?.
  repeat case_match; simplify_eq; simpl;
    rewrite ?sheet_block_frame by done; by simplify_map_eq.
Qed.

Lemma X14_main_frame_witness :
  "notes.txt" ≠ gta1_path "scripts" ∧ "notes.txt" ≠ gta2_path "scripts"
  ∧ "notes.txt" ≠ backup1_path "scripts"
  ∧ "notes.txt" ≠ backup2_path "scripts"
  ∧ (main "scripts" used_fs).1 !! "notes.txt" = used_fs !! "notes.txt".
Proof.
  split; [by vm_compute|]. split; [by vm_compute|].
  split; [by vm_compute|]. split; [by vm_compute|].
  apply (X14_main_frame "scripts" used_fs "notes.txt"); by vm_compute.
Defined.













